(** * manifoldjs-lib: the platform registry and loader (lib/platformTools.js)

    A shallow embedding of [platformTools.js] and a verification of its
    specification.

    - The registry [registeredPlatforms] is a JavaScript object used as a
      dictionary; it is an association list in the order of [Object.keys].
    - A promise of the Q library is described by what it settles to and by
      the tick of a logical clock at which it does so; a promise that never
      settles is [None].  A callback registered with [then] runs one tick
      after the promise it waits on.
    - The module system ([require]) and the package acquirer
      ([packageTools]) are collaborators outside this file: they are the
      fields of a [World].
    - The arrays that [loadPlatforms] shares between [platformMap] and the
      closures of its tasks live in a store of arrays and are named by
      their index.
    - [registeredPlatforms] and [platformMap] are plain objects: reading a
      property that is not their own finds the members of
      [Object.prototype], which are truthy and have no [packageName], no
      [instance] and no [push].
    - A [Platform] constructor is code of the loaded module: what it throws,
      if anything, is a field of the [World] too. *)

From stdpp Require Import base strings list gmap.

Open Scope string_scope.
Open Scope list_scope.
Open Scope stdpp_scope.

(** ** Values *)

(** The errors that travel through the file: the ones it creates with
    [new Error] and [new CustomError], and the ones collaborators throw,
    which carry an optional [code]. *)
Inductive JsError : Type :=
| Error (message : string)
| CustomError (message : string) (innerError : JsError)
| Thrown (code : option string) (message : string)
| TypeError (message : string).

#[global] Instance JsError_eq_dec : EqDecision JsError.
Proof. solve_decision. Defined.

Definition code (err : JsError) : option string :=
  match err with
  | Thrown c _ => c
  | _ => None
  end.

(** A loaded module; [Platform] is its exported constructor, named by a
    string, or [None] when the module exports none. *)
Record Module : Type := mkModule { Platform : option string }.

(** The object made by [new Platform(id, platforms)]. *)
Record Instance : Type := mkInstance {
  inst_constructor : string;
  inst_id : string;
  inst_platforms : list string
}.

#[global] Instance Instance_eq_dec : EqDecision Instance.
Proof. solve_decision. Defined.

(** An entry of the registry.  A field that is absent is [None]. *)
Record PlatformInfo : Type := mkPlatformInfo {
  packageName : option string;
  source : option string;
  instance : option Instance
}.

Definition Registry : Type := list (string * PlatformInfo).

(** The own property of [obj] at [key], if it has one. *)
Fixpoint get_property (obj : Registry) (key : string) : option PlatformInfo :=
  match obj with
  | [] => None
  | (k, v) :: rest => if decide (k = key) then Some v else get_property rest key
  end.

(** The names of the members of [Object.prototype], which every plain
    object inherits. *)
Definition Object_prototype : list string :=
  ["constructor"; "__defineGetter__"; "__defineSetter__"; "hasOwnProperty";
   "__lookupGetter__"; "__lookupSetter__"; "isPrototypeOf";
   "propertyIsEnumerable"; "toString"; "valueOf"; "__proto__";
   "toLocaleString"].

(** What reading [obj[key]] on a plain object finds: the own property, a
    member of [Object.prototype] (a function, or for [__proto__] the
    prototype itself), or [undefined]. *)
Inductive Property (V : Type) : Type :=
| own_property (value : V)
| inherited_property
| no_property.
Arguments own_property {V} value.
Arguments inherited_property {V}.
Arguments no_property {V}.

(** [obj[key]], given the own property of [obj] at [key]. *)
Definition get {V} (own : option V) (key : string) : Property V :=
  match own with
  | Some value => own_property value
  | None =>
      if decide (key ∈ Object_prototype) then inherited_property else no_property
  end.

(** [Object.keys(obj)] *)
Definition Object_keys (obj : Registry) : list string := map fst obj.

(** A string in a condition: [undefined] and the empty string are falsy. *)
Definition truthy (s : option string) : option string :=
  match s with
  | Some v => if decide (v = "") then None else Some v
  | None => None
  end.

(** ** Promises *)

Inductive Outcome (A : Type) : Type :=
| Fulfilled (value : A)
| Rejected (reason : JsError).
Arguments Fulfilled {A} value.
Arguments Rejected {A} reason.

(** [Some (t, o)]: settled at tick [t] with outcome [o]; [None]: pending
    for ever. *)
Definition Promise (A : Type) : Type := option (nat * Outcome A).

Definition settle_tick {A} (p : Promise A) : option nat := fst <$> p.

(** What the file does to the outside. *)
Inductive Event : Type :=
| log_debug (message : string)
| require_call (name : string)
| queuePackageInstallation_call (name src : string)
| installQueuedPackages_call
| new_call (ctor id : string) (platforms : list string).

#[global] Instance Event_eq_dec : EqDecision Event.
Proof. solve_decision. Defined.

(** The collaborators.  [require t name] is what [require(name)] does when
    called at tick [t]; [queuePackageInstallation t name src] is the promise
    the acquirer hands back for a request queued at tick [t];
    [construct t ctor id platforms] is the error that the constructor
    [ctor] throws when called with [new] at tick [t], [None] when it
    returns. *)
Record World : Type := mkWorld {
  require : nat -> string -> JsError + Module;
  queuePackageInstallation : nat -> string -> string -> Promise unit;
  construct : nat -> string -> string -> list string -> option JsError
}.

(** What a callback does when it runs: the events of its turn and the
    promise it returns (a returned value is a promise fulfilled on the spot,
    a thrown error one rejected on the spot). *)
Definition Callback (A B : Type) : Type := nat -> A -> list Event * Promise B.

Definition Q_resolve {A} (now : nat) (value : A) : Promise A :=
  Some (now, Fulfilled value).

Definition Q_reject {A} (now : nat) (reason : JsError) : Promise A :=
  Some (now, Rejected reason).

Definition stamp (t : nat) (evs : list Event) : list (nat * Event) :=
  map (pair t) evs.

(** [p.then(f)]: the promise, and the events of [f] with their tick. *)
Definition then_ {A B} (p : Promise A) (f : Callback A B)
  : Promise B * list (nat * Event) :=
  match p with
  | None => (None, [])
  | Some (t, Rejected e) => (Some (S t, Rejected e), [])
  | Some (t, Fulfilled v) =>
      let '(evs, q) := f (S t) v in
      (match q with
       | None => None
       | Some (tq, o) => Some (S t `max` tq, o)
       end, stamp (S t) evs)
  end.

(** The first rejection in time of a list of promises; among rejections of
    one tick, the first of the list. *)
Fixpoint first_rejection {A} (ps : list (Promise A)) : option (nat * JsError) :=
  match ps with
  | [] => None
  | p :: rest =>
      match p, first_rejection rest with
      | Some (t, Rejected e), Some (t', e') =>
          if decide (t <= t') then Some (t, e) else Some (t', e')
      | Some (t, Rejected e), None => Some (t, e)
      | _, r => r
      end
  end.

(** The values of the promises when every one is fulfilled, with the tick
    of the last. *)
Fixpoint all_fulfilled {A} (now : nat) (ps : list (Promise A))
  : option (nat * list A) :=
  match ps with
  | [] => Some (now, [])
  | Some (t, Fulfilled v) :: rest =>
      match all_fulfilled now rest with
      | Some (t', vs) => Some (t `max` t', v :: vs)
      | None => None
      end
  | _ :: _ => None
  end.

(** [Q.all(ps)] *)
Definition Q_all {A} (now : nat) (ps : list (Promise A)) : Promise (list A) :=
  match first_rejection ps with
  | Some (t, e) => Some (now `max` t, Rejected e)
  | None =>
      match all_fulfilled now ps with
      | Some (t, vs) => Some (t, Fulfilled vs)
      | None => None
      end
  end.

(** [Q.allSettled(ps)] *)
Fixpoint Q_allSettled {A} (now : nat) (ps : list (Promise A))
  : Promise (list (Outcome A)) :=
  match ps with
  | [] => Some (now, Fulfilled [])
  | Some (t, o) :: rest =>
      match Q_allSettled now rest with
      | Some (t', Fulfilled os) => Some (t `max` t', Fulfilled (o :: os))
      | _ => None
      end
  | None :: _ => None
  end.

(** [p.finally(f)]: [f] runs when [p] settles, either way; the result waits
    for the promise [f] returns and then settles as [p] did, unless that
    promise is rejected. *)
Definition finally_ {A B} (p : Promise A) (f : nat -> Promise B) : Promise A :=
  match p with
  | None => None
  | Some (t, o) =>
      match f (S t) with
      | None => None
      | Some (tq, Fulfilled _) => Some (S t `max` tq, o)
      | Some (tq, Rejected e) => Some (S t `max` tq, Rejected e)
      end
  end.

(** ** State of the file and of one turn *)

(** [registeredPlatforms] is the variable of line 12; [trace] holds the
    calls made to collaborators during the current turn, in program order;
    [later] holds the calls that callbacks registered so far make, each with
    the tick of its turn. *)
Record State : Type := mkState {
  registeredPlatforms : Registry;
  trace : list Event;
  later : list (nat * Event)
}.

(** [var registeredPlatforms = {};] *)
Definition initial_state : State :=
  {| registeredPlatforms := []; trace := []; later := [] |}.

Definition M (A : Type) : Type := State -> A * State.

Definition ret {A} (a : A) : M A := fun s => (a, s).

Definition bind {A B} (m : M A) (k : A -> M B) : M B :=
  fun s => let '(a, s') := m s in k a s'.

Notation "'let*' x ':=' m 'in' k" := (bind m (fun x => k))
  (at level 10, x name, m at level 100, k at level 200, only parsing).

Definition emit (e : Event) : M unit :=
  fun s => (tt, {| registeredPlatforms := registeredPlatforms s;
                   trace := trace s ++ [e];
                   later := later s |}).


(** [p.then(f)] called in the current turn. *)
Definition then_M {A B} (p : Promise A) (f : Callback A B) : M (Promise B) :=
  fun s => let '(q, evs) := then_ p f in
           (q, {| registeredPlatforms := registeredPlatforms s;
                  trace := trace s;
                  later := later s ++ evs |}).

(** ** The module loader *)

Section Loader.

Variable W : World.

(** The turn in progress. *)
Variable now : nat.

(** The callback of line 40: require the package again. *)
Definition require_again (name : string) : Callback unit Module :=
  fun t _ =>
    ([require_call name],
     match require W t name with
     | inr module => Q_resolve t module
     | inl err => Q_reject t err
     end).

(** [getPlatformModule(packageName, source)], lines 18-45. *)
Definition getPlatformModule (packageName source : option string)
  : M (Promise Module) :=
  match truthy packageName with
  | None => ret (Q_reject now (Error "Platform name is missing or invalid."))
  | Some name =>
      match truthy source with
      | None =>
          ret (Q_reject now
                 (Error "Platform package source is missing or invalid."))
      | Some src =>
          let* _ := emit (require_call name) in
          match require W now name with
          | inr module => ret (Q_resolve now module)
          | inl err =>
              if decide (code err = Some "MODULE_NOT_FOUND") then
                let* _ := emit (queuePackageInstallation_call name src) in
                then_M (queuePackageInstallation W now name src)
                       (require_again name)
              else
                ret (Q_reject now
                       (CustomError
                          ("Failed to resolve module: '" +:+ name +:+ "'.")
                          err))
          end
      end
  end.

(** The callback of line 50: [module.Platform]. *)
Definition get_Platform : Callback Module (option string) :=
  fun t module => ([], Q_resolve t (Platform module)).

(** Printing a string that may be [undefined]. *)
Definition to_string (s : option string) : string :=
  default "undefined" s.

(** [loadPlatform(packageName, source)], lines 47-54, without callback. *)
Definition loadPlatform (packageName source : option string)
  : M (Promise (option string)) :=
  let* _ := emit (log_debug ("Loading platform module: " +:+ to_string packageName)) in
  let* p := getPlatformModule packageName source in
  then_M p get_Platform.

(** ** The batch loader *)

(** The value of a task: [{ id: packageName, Platform: Platform, platforms:
    platformList }], where [platforms] is the array shared with
    [platformMap], named by its index in the store. *)
Record LoadedModule : Type := mkLoadedModule {
  module_id : string;
  module_Platform : option string;
  module_platforms : nat
}.

(** The reduction of line 60 as it goes from one platform id to the next:
    its accumulator [taskList], the [platformMap] it closes over, the store
    of the arrays it allocated, the state, and the error that stopped it,
    if one was thrown. *)
Record Loop : Type := mkLoop {
  taskList : list (Promise LoadedModule);
  platformMap : gmap string nat;
  arrays : list (list string);
  loop_state : State;
  thrown : option JsError
}.

(** The callback of line 74. *)
Definition make_module (packageName : string) (platformList : nat)
  : Callback (option string) LoadedModule :=
  fun t Platform =>
    ([], Q_resolve t {| module_id := packageName;
                        module_Platform := Platform;
                        module_platforms := platformList |}).

(** [platformList.push(platformId)] *)
Definition push (platformList : nat) (platformId : string)
    (store : list (list string)) : list (list string) :=
  alter (fun l => l ++ [platformId]) platformList store.

(** The reducer, lines 60-89.  [platformInfo] is what line 63 reads, a
    member of [Object.prototype] when the id names one; such a member is
    truthy and has no [packageName].  [platformList] is what line 68
    reads; a member of [Object.prototype] is truthy, so no task is made,
    and it has no [push], so line 82 throws. *)
Definition reducer (acc : Loop) (platformId : string) : JsError + Loop :=
  let platformInfo :=
    get (get_property (registeredPlatforms (loop_state acc)) platformId)
      platformId in
  let packageName :=
    match platformInfo with
    | own_property info => truthy (packageName info)
    | inherited_property | no_property => None
    end in
  let source :=
    match platformInfo with
    | own_property info => source info
    | inherited_property | no_property => None
    end in
  match packageName with
  | Some name =>
      match get (platformMap acc !! name) name with
      | no_property =>
          let platformList := length (arrays acc) in
          let '(p, s1) := loadPlatform (Some name) source (loop_state acc) in
          let '(task, s2) := then_M p (make_module name platformList) s1 in
          inr {| taskList := taskList acc ++ [task];
                 platformMap := <[name := platformList]> (platformMap acc);
                 arrays := push platformList platformId (arrays acc ++ [[]]);
                 loop_state := s2;
                 thrown := thrown acc |}
      | own_property platformList =>
          inr {| taskList := taskList acc;
                 platformMap := platformMap acc;
                 arrays := push platformList platformId (arrays acc);
                 loop_state := loop_state acc;
                 thrown := thrown acc |}
      | inherited_property =>
          inl (TypeError "platformList.push is not a function")
      end
  | None =>
      inr {| taskList := taskList acc ++
               [Q_reject now
                  (Error ("Platform '" +:+ platformId +:+ "' is not registered!"))];
             platformMap := platformMap acc;
             arrays := arrays acc;
             loop_state := loop_state acc;
             thrown := thrown acc |}
  end.

(** The reduction stopped by an error. *)
Definition stopped (acc : Loop) (err : JsError) : Loop :=
  {| taskList := taskList acc;
     platformMap := platformMap acc;
     arrays := arrays acc;
     loop_state := loop_state acc;
     thrown := Some err |}.

(** [platforms.reduce(reducer, acc)]: the reducer is called for one id after
    the other; when it throws, the reduction stops there. *)
Fixpoint reduce (platforms : list string) (acc : Loop) : Loop :=
  match platforms with
  | [] => acc
  | platformId :: rest =>
      match reducer acc platformId with
      | inr acc' => reduce rest acc'
      | inl err => stopped acc err
      end
  end.

(** [new module.Platform(module.id, module.platforms)] for each module in
    turn (line 98), at tick [t]; a module without constructor stops the
    map with a [TypeError], and so does a constructor that throws, with
    its own error. *)
Fixpoint create_instances (t : nat) (store : list (list string))
    (modules : list LoadedModule) : list Event * (JsError + list Instance) :=
  match modules with
  | [] => ([], inr [])
  | module :: rest =>
      match module_Platform module with
      | None => ([], inl (TypeError "module.Platform is not a constructor"))
      | Some ctor =>
          let platforms := default [] (store !! module_platforms module) in
          match construct W t ctor (module_id module) platforms with
          | Some err => ([new_call ctor (module_id module) platforms], inl err)
          | None =>
              let '(evs, r) := create_instances t store rest in
              (new_call ctor (module_id module) platforms :: evs,
               match r with
               | inr instances =>
                   inr ({| inst_constructor := ctor;
                           inst_id := module_id module;
                           inst_platforms := platforms |} :: instances)
               | inl err => inl err
               end)
          end
      end
  end.

(** The callback of line 96. *)
Definition instantiate (store : list (list string))
  : Callback (list LoadedModule) (list Instance) :=
  fun t modules =>
    let '(evs, r) := create_instances t store modules in
    (evs, match r with
          | inr instances => Q_resolve t instances
          | inl err => Q_reject t err
          end).

(** The reduction of line 60 over the whole batch. *)
Definition load_tasks (platforms : list string) (s : State) : Loop :=
  reduce platforms
    {| taskList := []; platformMap := ∅; arrays := []; loop_state := s;
       thrown := None |}.

(** [loadPlatforms(platforms)], lines 56-109, without callback: the error
    thrown out of the reduction, or the promise returned. *)
Definition loadPlatforms (platforms : list string)
  : M (JsError + Promise (list Instance)) :=
  fun s =>
    let acc := load_tasks platforms s in
    let tasks := taskList acc in
    match thrown acc with
    | Some err => (inl err, loop_state acc)
    | None =>
        (let* _ := emit installQueuedPackages_call in
         let* loaded := then_M (Q_all now tasks) (instantiate (arrays acc)) in
         ret (inr (finally_ loaded (fun t => Q_allSettled t tasks))))
          (loop_state acc)
    end.

End Loader.

(** ** The registry *)

(** [enablePlatforms(platformConfig)], lines 111-124; [defaultConfig] is
    what requiring the default configuration file gives, [None] when the
    file is missing or invalid. *)
Definition enablePlatforms (defaultConfig : option Registry) (configPath : string)
    (platformConfig : option Registry) : M (JsError + unit) :=
  fun s =>
    let config :=
      match platformConfig with
      | Some c => Some c
      | None => defaultConfig
      end in
    match config with
    | Some c => (inr tt, {| registeredPlatforms := c;
                            trace := trace s;
                            later := later s |})
    | None =>
        (inl (Error ("Platform configuration file is missing or invalid - path: '"
                       +:+ configPath +:+ "'.")), s)
    end.

(** [getAllPlatforms()], lines 126-131.  A key of the object is an own
    property: the entry read back at it is there.  The other two cases are
    not reached; a member of [Object.prototype] has no [instance]. *)
Definition getAllPlatforms (registered : Registry) : list (option Instance) :=
  map (fun key =>
         match get (get_property registered key) key with
         | own_property platformInfo => instance platformInfo
         | inherited_property | no_property => None
         end)
      (Object_keys registered).

(** [getPlatform(platformId)], lines 133-144.  A member of
    [Object.prototype] passes the test of line 135 and has no [instance]. *)
Definition getPlatform (registered : Registry) (platformId : string)
  : JsError + Instance :=
  match get (get_property registered platformId) platformId with
  | no_property =>
      inl (Error ("The requested platform '" +:+ platformId +:+ "' was not found."))
  | inherited_property =>
      inl (Error ("The requested platform '" +:+ platformId +:+ "' was not loaded."))
  | own_property platformInfo =>
      match instance platformInfo with
      | None =>
          inl (Error ("The requested platform '" +:+ platformId +:+ "' was not loaded."))
      | Some i => inr i
      end
  end.

(** ** Reading the registry *)

(** The package a platform id is registered with: the registry has an entry
    of its own for the id and the [packageName] of the entry is a non-empty
    string (the test of line 64; a member of [Object.prototype] has no
    [packageName]). *)
Definition package_of (registered : Registry) (platformId : string)
  : option string :=
  get_property registered platformId ≫= (fun info => truthy (packageName info)).

(** The message of line 85. *)
Definition not_registered (platformId : string) : JsError :=
  Error ("Platform '" +:+ platformId +:+ "' is not registered!").

(** The ids of a batch that a package backs, in the order of the batch. *)
Definition backed_by (registered : Registry) (name : string)
    (platforms : list string) : list string :=
  filter (fun id => package_of registered id = Some name) platforms.

(** ** Sample worlds and registries *)

(** What [require] throws for a package that is not installed. *)
Definition module_not_found : JsError :=
  Thrown (Some "MODULE_NOT_FOUND") "Cannot find module".

(** What [require] throws for a package whose code does not parse. *)
Definition syntax_error : JsError :=
  Thrown None "Unexpected token".

Definition module_of (name : string) : Module :=
  {| Platform := Some (name +:+ ".Platform") |}.

(** Every package is installed. *)
Definition world_installed : World :=
  {| require := fun _ name => inr (module_of name);
     queuePackageInstallation := fun _ _ _ => None;
     construct := fun _ _ _ _ => None |}.

(** No package is installed at tick 0; the acquirer installs what is
    queued and fulfils its promises at tick 5. *)
Definition world_installing : World :=
  {| require := fun t name =>
       if decide (t = 0) then inl module_not_found else inr (module_of name);
     queuePackageInstallation := fun _ _ _ => Some (5, Fulfilled tt);
     construct := fun _ _ _ _ => None |}.

(** As [world_installing], but what gets installed does not parse. *)
Definition world_broken_install : World :=
  {| require := fun t name =>
       if decide (t = 0) then inl module_not_found else inl syntax_error;
     queuePackageInstallation := fun _ _ _ => Some (5, Fulfilled tt);
     construct := fun _ _ _ _ => None |}.

(** Every package is installed and none parses. *)
Definition world_broken : World :=
  {| require := fun _ _ => inl syntax_error;
     queuePackageInstallation := fun _ _ _ => None;
     construct := fun _ _ _ _ => None |}.

(** Every package is installed and every constructor throws. *)
Definition world_throwing : World :=
  {| require := fun _ name => inr (module_of name);
     queuePackageInstallation := fun _ _ _ => None;
     construct := fun _ _ _ _ => Some (Error "not supported") |}.

Definition entry (name src : string) : PlatformInfo :=
  {| packageName := Some name; source := Some src; instance := None |}.

(** The configuration of the scenario of the specification. *)
Definition sample_config : Registry :=
  [("a", entry "modA" "src"); ("b", entry "modA" "src"); ("c", entry "modC" "src2")].

Definition sample_state : State :=
  {| registeredPlatforms := sample_config; trace := []; later := [] |}.

(** A registry in which [a] is loaded and [b] is not. *)
Definition sample_instance : Instance :=
  {| inst_constructor := "modA.Platform"; inst_id := "modA"; inst_platforms := ["a"] |}.

Definition half_loaded : Registry :=
  [("a", {| packageName := Some "modA"; source := Some "src";
            instance := Some sample_instance |});
   ("b", entry "modB" "src")].

(** [getAllPlatforms] in the words of the specification: the loaded
    instance of every registered entry that has one, entries without
    instance left out. *)
Definition getAllPlatforms_as_specified (registered : Registry) : list Instance :=
  omap (fun kv => instance kv.2) registered.

(** A registry in which [x] has an entry with an empty package name. *)
Definition nameless_config : Registry :=
  [("x", {| packageName := Some ""; source := Some "src"; instance := None |});
   ("a", entry "modA" "src")].

Definition nameless_state : State :=
  {| registeredPlatforms := nameless_config; trace := []; later := [] |}.

(** A registry in which [k] is registered with a package whose name is
    that of a member of [Object.prototype]. *)
Definition inherited_config : Registry :=
  [("a", entry "modA" "src"); ("k", entry "constructor" "src")].

Definition inherited_state : State :=
  {| registeredPlatforms := inherited_config; trace := []; later := [] |}.

(** ** Shapes used in the statements *)

(** A state after more calls: [evs] in the current turn, [lat] by
    callbacks. *)
Definition add_events (s : State) (evs : list Event) (lat : list (nat * Event))
  : State :=
  {| registeredPlatforms := registeredPlatforms s;
     trace := trace s ++ evs;
     later := later s ++ lat |}.

(** The line [loadPlatform] logs for a package. *)
Definition loading (name : string) : Event :=
  log_debug ("Loading platform module: " +:+ name).

(** What one call of [loadPlatform] for a package may do in its turn after
    logging: nothing, require the package, or require it and queue its
    installation. *)
Definition resolution_calls (name : string) (evs : list Event) : Prop :=
  evs = [] \/ evs = [require_call name] \/
  exists src, evs = [require_call name; queuePackageInstallation_call name src].

(** What its callbacks may do: nothing, or require the package again. *)
Definition second_attempt (name : string) (lat : list (nat * Event)) : Prop :=
  lat = [] \/ exists t, lat = [(t, require_call name)].

(** A task made for a package, with the array it shares with
    [platformMap]: when it is fulfilled, its value names both. *)
Definition task_for (name : string) (platformList : nat)
    (task : Promise LoadedModule) : Prop :=
  forall t m, task = Some (t, Fulfilled m) ->
    module_id m = name /\ module_platforms m = platformList.

(** What a task of the list stands for: the package it loads, or [None]
    for the rejection of an id that is not registered. *)
Definition task_of_key (registered : Registry) (now : nat) (seen : list string)
    (map : gmap string nat) (task : Promise LoadedModule) (key : option string)
  : Prop :=
  match key with
  | Some name => exists platformList,
      map !! name = Some platformList /\ task_for name platformList task
  | None => exists id,
      id ∈ seen /\ package_of registered id = None /\
      task = Q_reject now (not_registered id)
  end.

Definition count (e : Event) (evs : list Event) : nat :=
  length (filter (fun x => x = e) evs).

(** What holds of the reduction of line 60 after the ids [seen], started in
    state [s]: [keys] names what each task stands for, [evs] and [lat] are
    the calls made so far. *)
Record batch_invariant (now : nat) (s : State) (seen : list string) (acc : Loop)
    (keys : list (option string)) (evs : list Event) (lat : list (nat * Event))
  : Prop := {
  inv_state : loop_state acc = add_events s evs lat;
  inv_dom : forall name,
    is_Some (platformMap acc !! name) <->
    exists id, id ∈ seen /\ package_of (registeredPlatforms s) id = Some name;
  inv_arrays : forall name platformList,
    platformMap acc !! name = Some platformList ->
    arrays acc !! platformList = Some (backed_by (registeredPlatforms s) name seen);
  inv_alias : forall name1 name2 platformList,
    platformMap acc !! name1 = Some platformList ->
    platformMap acc !! name2 = Some platformList -> name1 = name2;
  inv_tasks :
    Forall2 (task_of_key (registeredPlatforms s) now seen (platformMap acc))
      (taskList acc) keys;
  inv_keys_NoDup : NoDup (omap id keys);
  inv_keys : forall name, Some name ∈ keys <-> is_Some (platformMap acc !! name);
  inv_rejections : forall id,
    id ∈ seen -> package_of (registeredPlatforms s) id = None ->
    Q_reject now (not_registered id) ∈ taskList acc;
  inv_no_flush :
    (installQueuedPackages_call ∉ evs) /\
    Forall (fun te => exists name, te.2 = require_call name) lat;
  inv_loading : forall name,
    count (loading name) evs = if platformMap acc !! name is Some _ then 1 else 0;
  inv_require : forall name,
    count (require_call name) evs <= if platformMap acc !! name is Some _ then 1 else 0
}.

(** ** The order of the tasks *)

(** What the reduction of line 60 makes of the packages of a batch, read
    from left to right: [None] is the rejection pushed for an id without
    package, [Some name] the task created when [name] is met for the first
    time; an id whose package is among [loaded] already adds nothing. *)
Fixpoint plan_from (loaded : list string) (packages : list (option string))
  : list (option string) :=
  match packages with
  | [] => []
  | None :: rest => None :: plan_from loaded rest
  | Some name :: rest =>
      if decide (name ∈ loaded) then plan_from loaded rest
      else Some name :: plan_from (name :: loaded) rest
  end.

Definition task_plan (registered : Registry) (platforms : list string)
  : list (option string) :=
  plan_from [] (package_of registered <$> platforms).

(** The task that line 73 makes for a package: the promise of
    [loadPlatform] with the callback of line 74, whose value names the
    array [platformList].  It does not depend on the state in which it is
    made. *)
Definition package_task (W : World) (now : nat) (name : string)
    (source : option string) (platformList : nat) : Promise LoadedModule :=
  (then_ (then_ (getPlatformModule W now (Some name) source initial_state).1
            get_Platform).1
     (make_module name platformList)).1.

(** What the reduction pushes on [taskList], in order. *)
Inductive Planned : Type :=
| planned_task (name : string) (source : option string) (platformList : nat)
| planned_rejection (platformId : string).

(** The pushes for a batch, read from left to right, [loaded] being the
    packages that have their task already, in the order of their arrays:
    an id without package pushes its rejection; the first id of a package
    pushes the task of the package, made with the source of this id and a
    new array; an id whose package is among [loaded] pushes nothing. *)
Fixpoint order_from (registered : Registry) (loaded : list string)
    (platforms : list string) : list Planned :=
  match platforms with
  | [] => []
  | platformId :: rest =>
      match package_of registered platformId with
      | None => planned_rejection platformId :: order_from registered loaded rest
      | Some name =>
          if decide (name ∈ loaded) then order_from registered loaded rest
          else planned_task name (get_property registered platformId ≫= source)
                 (length loaded)
               :: order_from registered (loaded ++ [name]) rest
      end
  end.

(** The packages that have their task after a batch. *)
Fixpoint loaded_after (registered : Registry) (loaded : list string)
    (platforms : list string) : list string :=
  match platforms with
  | [] => loaded
  | platformId :: rest =>
      match package_of registered platformId with
      | None => loaded_after registered loaded rest
      | Some name =>
          if decide (name ∈ loaded) then loaded_after registered loaded rest
          else loaded_after registered (loaded ++ [name]) rest
      end
  end.

Definition task_order (registered : Registry) (platforms : list string)
  : list Planned :=
  order_from registered [] platforms.

Definition planned_promise (W : World) (now : nat) (item : Planned)
  : Promise LoadedModule :=
  match item with
  | planned_task name source platformList =>
      package_task W now name source platformList
  | planned_rejection platformId => Q_reject now (not_registered platformId)
  end.

(** The call of the constructor that makes an instance. *)
Definition construction (inst : Instance) : Event :=
  new_call (inst_constructor inst) (inst_id inst) (inst_platforms inst).

(** ** The calls of a batch *)

(** [platformId] is the first id of the batch registered with [name]. *)
Definition first_with (registered : Registry) (name : string)
    (platforms : list string) (platformId : string) : Prop :=
  exists before after,
    platforms = before ++ platformId :: after /\
    package_of registered platformId = Some name /\
    forall x, x ∈ before -> package_of registered x <> Some name.

(** What stands behind a call made while the tasks of a batch are created:
    a line logged or a package required belongs to a package of the batch,
    and the first id registered with it has a source when the package is
    required; an installation is queued for a package that [require] did
    not find, with the source of the first id registered with it. *)
Definition turn_call_justified (W : World) (now : nat) (registered : Registry)
    (platforms : list string) (e : Event) : Prop :=
  match e with
  | log_debug message =>
      exists name platformId,
        message = "Loading platform module: " +:+ name /\
        first_with registered name platforms platformId
  | require_call name =>
      exists platformId info,
        first_with registered name platforms platformId /\
        get_property registered platformId = Some info /\
        is_Some (truthy (source info))
  | queuePackageInstallation_call name src =>
      exists platformId info err,
        first_with registered name platforms platformId /\
        get_property registered platformId = Some info /\
        truthy (source info) = Some src /\
        require W now name = inl err /\
        code err = Some "MODULE_NOT_FOUND"
  | _ => False
  end.




(** ** Facts about promises *)

Lemma then_fulfilled_inv {A B} (p : Promise A) (f : Callback A B) t (b : B) :
  (then_ p f).1 = Some (t, Fulfilled b) ->
  exists t0 a evs tq, p = Some (t0, Fulfilled a) /\
    f (S t0) a = (evs, Some (tq, Fulfilled b)) /\ t = S t0 `max` tq.
Proof.
  unfold then_. destruct p as [[t0 [a|e]]|]; simpl; try discriminate.
  destruct (f (S t0) a) as [evs [[tq o]|]] eqn:Hf; simpl; try discriminate.
  intros [= <- ->]. by exists t0, a, evs, tq.
Qed.




Lemma all_fulfilled_values {A} now (ps : list (Promise A)) t vs :
  all_fulfilled now ps = Some (t, vs) ->
  Forall2 (fun p v => exists tp, p = Some (tp, Fulfilled v) /\ tp <= t) ps vs.
Proof.
  induction ps as [|p ps IH] in t, vs |- *; simpl.
  - intros [= <- <-]. constructor.
  - destruct p as [[tp [v|r]]|]; try discriminate.
    destruct (all_fulfilled now ps) as [[t' vs']|]; try discriminate.
    intros [= <- <-]. constructor.
    + exists tp. split; [done | lia].
    + eapply Forall2_impl; [by apply IH|].
      intros p v' (tq & -> & Hle). exists tq. split; [done | lia].
Qed.

Lemma Q_allSettled_waits {A} now (ps : list (Promise A)) t o :
  Q_allSettled now ps = Some (t, o) ->
  now <= t /\ Forall (fun p => exists tp, settle_tick p = Some tp /\ tp <= t) ps.
Proof.
  induction ps as [|p ps IH] in t, o |- *; simpl.
  - intros [= <- <-]. split; [lia | constructor].
  - destruct p as [[tp op]|]; try discriminate.
    destruct (Q_allSettled now ps) as [[t' [os|e]]|]; try discriminate.
    intros [= <- <-]. destruct (IH t' (Fulfilled os) eq_refl) as [Hnow Hall].
    split; [lia|]. constructor.
    + exists tp. split; [done | lia].
    + eapply Forall_impl; [exact Hall|].
      intros p (tq & Hp & Hle). exists tq. split; [done | lia].
Qed.

Lemma Q_allSettled_settles {A} now (ps : list (Promise A)) :
  Forall (fun p => is_Some (settle_tick p)) ps ->
  exists t os, Q_allSettled now ps = Some (t, Fulfilled os).
Proof.
  induction 1 as [|p ps Hp _ IH]; simpl; [by eauto|].
  destruct p as [[tp op]|]; [|by destruct Hp].
  destruct IH as (t & os & ->). eauto.
Qed.

Lemma Q_all_settles {A} now (ps : list (Promise A)) :
  Forall (fun p => is_Some (settle_tick p)) ps ->
  is_Some (Q_all now ps).
Proof.
  intros Hall. unfold Q_all.
  destruct (first_rejection ps) as [[t e]|] eqn:Hrej; [done|].
  assert (exists t vs, all_fulfilled now ps = Some (t, vs)) as (t & vs & ->); [|done].
  induction Hall as [|p ps Hp _ IH]; simpl; [by eauto|].
  simpl in Hrej. destruct p as [[tp [v|r]]|]; [| |by destruct Hp].
  - destruct (IH Hrej) as (t & vs & ->). eauto.
  - destruct (first_rejection ps) as [[t' e']|]; [case_decide|]; discriminate.
Qed.

Lemma all_fulfilled_tick {A} now (ps : list (Promise A)) t vs :
  all_fulfilled now ps = Some (t, vs) -> now <= t.
Proof.
  revert t vs. induction ps as [|p ps IH]; simpl; intros t vs.
  - by intros [= <- _].
  - destruct p as [[tp [v|r]]|]; try discriminate.
    destruct (all_fulfilled now ps) as [[t' vs']|]; try discriminate.
    intros [= <- _]. specialize (IH t' vs' eq_refl). lia.
Qed.

Lemma Q_all_tick {A} now (ps : list (Promise A)) t o :
  Q_all now ps = Some (t, o) -> now <= t.
Proof.
  unfold Q_all. destruct (first_rejection ps) as [[t' e]|].
  - intros [= <- _]. lia.
  - destruct (all_fulfilled now ps) as [[t' vs]|] eqn:Hall; [|discriminate].
    intros [= <- _]. by eapply all_fulfilled_tick.
Qed.

(** ** The module loader: [getPlatformModule] *)

(** C8.  A call of the module loader whose package name or install source is
    missing or empty returns a promise rejected on the spot with one of the
    two argument errors of lines 21 and 25, and leaves the state as it was:
    nothing is required, nothing is queued with the package acquirer and no
    callback is registered. *)
Theorem getPlatformModule_invalid_argument W now packageName source s :
  truthy packageName = None \/ truthy source = None ->
  exists message,
    getPlatformModule W now packageName source s
      = (Q_reject now (Error message), s) /\
    (message = "Platform name is missing or invalid." \/
     message = "Platform package source is missing or invalid.").
Proof.
  intros Hbad. unfold getPlatformModule.
  destruct (truthy packageName) as [name|] eqn:Hname.
  - destruct Hbad as [Hbad | ->]; [discriminate|].
    eexists. split; [reflexivity | by right].
  - eexists. split; [reflexivity | by left].
Qed.

Lemma getPlatformModule_invalid_argument_witness :
  exists message,
    getPlatformModule world_installed 0 (Some "") (Some "npm") initial_state
      = (Q_reject 0 (Error message), initial_state) /\
    (message = "Platform name is missing or invalid." \/
     message = "Platform package source is missing or invalid.").
Proof.
  apply (getPlatformModule_invalid_argument world_installed 0 (Some "") (Some "npm")
           initial_state).
  left. reflexivity.
Defined.



(** C7, as the code has it.  When the package name and the source are
    non-empty and the direct attempt, the [require] of line 29, fails with
    an error whose code is not MODULE_NOT_FOUND, the loader returns a
    promise rejected on the spot with a [CustomError] that wraps this
    error; it has required once and queued nothing with the acquirer. *)
Theorem getPlatformModule_resolution_error W now packageName source s name src err :
  truthy packageName = Some name ->
  truthy source = Some src ->
  require W now name = inl err ->
  code err <> Some "MODULE_NOT_FOUND" ->
  getPlatformModule W now packageName source s =
    (Q_reject now
       (CustomError ("Failed to resolve module: '" +:+ name +:+ "'.") err),
     {| registeredPlatforms := registeredPlatforms s;
        trace := trace s ++ [require_call name];
        later := later s |}).
Proof.
  intros Hname Hsrc Hreq Hcode. unfold getPlatformModule.
  rewrite Hname, Hsrc. unfold bind, emit. simpl.
  rewrite Hreq. by rewrite decide_False.
Qed.

Lemma getPlatformModule_resolution_error_witness :
  (truthy (Some "modA") = Some "modA" /\
   truthy (Some "src") = Some "src" /\
   require world_broken 0 "modA" = inl syntax_error /\
   code syntax_error <> Some "MODULE_NOT_FOUND") /\
  getPlatformModule world_broken 0 (Some "modA") (Some "src") initial_state =
    (Q_reject 0 (CustomError "Failed to resolve module: 'modA'." syntax_error),
     {| registeredPlatforms := []; trace := [require_call "modA"]; later := [] |}).
Proof.
  split; [repeat split; discriminate|].
  apply (getPlatformModule_resolution_error world_broken 0
           (Some "modA") (Some "src") initial_state "modA" "src" syntax_error);
    [reflexivity | reflexivity | reflexivity | discriminate].
Defined.

(** C7, as stated, fails for the second attempt.  A package that is missing
    at first is queued; once the acquirer is done the callback of line 40
    requires it again, and here that attempt fails with an error that is
    not MODULE_NOT_FOUND.  The promise of the loader is rejected with this
    very error, not with a [CustomError] that wraps it, and an installation
    has been queued. *)
Lemma second_attempt_error_not_wrapped :
  require world_broken_install 6 "modA" = inl syntax_error /\
  code syntax_error <> Some "MODULE_NOT_FOUND" /\
  exists s',
    getPlatformModule world_broken_install 0 (Some "modA") (Some "src") initial_state
      = (Some (6, Rejected syntax_error), s') /\
    later s' = [(6, require_call "modA")] /\
    queuePackageInstallation_call "modA" "src" ∈ trace s' /\
    forall message inner,
      Some (6, @Rejected Module syntax_error)
        <> Some (6, Rejected (CustomError message inner)).
Proof.
  split; [reflexivity|]. split; [discriminate|].
  eexists. split; [reflexivity|]. simpl. split; [reflexivity|].
  split; [|discriminate].
  apply list_elem_of_In. simpl. auto.
Qed.

(** ** The registry: [getAllPlatforms] and [getPlatform] *)

Lemma lookup_map {A B} (f : A -> B) (l : list A) (i : nat) :
  map f l !! i = f <$> l !! i.
Proof.
  revert i. induction l as [|a l IH]; intros [|i]; simpl; auto.
Qed.

Lemma getAllPlatforms_NoDup (registered : Registry) :
  NoDup (Object_keys registered) ->
  getAllPlatforms registered = map (fun kv => instance kv.2) registered.
Proof.
  unfold getAllPlatforms, Object_keys.
  induction registered as [|[key info] rest IH]; [done|].
  intros Hnd. apply NoDup_cons in Hnd as [Hfresh Hnd]. simpl.
  rewrite decide_True by done. simpl. f_equal.
  rewrite <- (IH Hnd). apply map_ext_in. intros k Hk.
  apply list_elem_of_In in Hk.
  rewrite decide_False; [done|]. intros ->. by apply Hfresh.
Qed.

(** C4, as stated, fails: the result has an element for an entry that is
    not loaded.  With [a] loaded and [b] not, [getAllPlatforms] returns two
    elements, the second one [undefined], where the specification's words
    give the instance of [a] alone. *)
Lemma getAllPlatforms_keeps_unloaded :
  getAllPlatforms half_loaded = [Some sample_instance; None] /\
  getAllPlatforms_as_specified half_loaded = [sample_instance] /\
  getAllPlatforms half_loaded <> Some <$> getAllPlatforms_as_specified half_loaded.
Proof. repeat split; discriminate. Qed.

(** C4, as the code has it.  [getAllPlatforms] maps over the keys without
    filtering: the result has one element for every registered entry, in
    the order of the keys, which is the [instance] field of that entry, the
    loaded instance when there is one and [undefined] when there is none.
    The loaded instances among them are the ones the specification lists. *)
Theorem getAllPlatforms_every_entry (registered : Registry) :
  NoDup (Object_keys registered) ->
  length (getAllPlatforms registered) = length registered /\
  (forall i key info,
     registered !! i = Some (key, info) ->
     getAllPlatforms registered !! i = Some (instance info)) /\
  omap id (getAllPlatforms registered) = getAllPlatforms_as_specified registered.
Proof.
  intros Hnd. rewrite (getAllPlatforms_NoDup _ Hnd). split; [|split].
  - by rewrite length_map.
  - intros i key info Hi. rewrite lookup_map.
    unfold Registry in *. by rewrite Hi.
  - unfold getAllPlatforms_as_specified. clear Hnd.
    induction registered as [|[key info] rest IH]; [done|].
    simpl. unfold omap in IH. by destruct (instance info); rewrite IH.
Qed.

Lemma getAllPlatforms_every_entry_witness :
  NoDup (Object_keys half_loaded) /\
  length (getAllPlatforms half_loaded) = 2 /\
  (forall i key info,
     half_loaded !! i = Some (key, info) ->
     getAllPlatforms half_loaded !! i = Some (instance info)) /\
  omap id (getAllPlatforms half_loaded) = [sample_instance].
Proof.
  assert (NoDup (Object_keys half_loaded)) as Hnd.
  { apply (bool_decide_unpack _). vm_compute. exact I. }
  split; [exact Hnd|].
  exact (getAllPlatforms_every_entry half_loaded Hnd).
Defined.

(** C9, as the code has it.  For an id that is not the name of a member of
    [Object.prototype], [getPlatform] returns the instance of an id that is
    registered and loaded; it throws the not-found error of line 136 for
    an id absent from the registry and the not-loaded error of line 140
    for an id whose entry has no instance.  Before any [enablePlatforms]
    the registry is the empty object of line 12, so such an id is absent
    from it and gets the not-found error. *)
Theorem getPlatform_outcomes (registered : Registry) (platformId : string) :
  platformId ∉ Object_prototype ->
  (forall info i,
     get_property registered platformId = Some info ->
     instance info = Some i -> getPlatform registered platformId = inr i) /\
  (get_property registered platformId = None ->
   getPlatform registered platformId =
     inl (Error ("The requested platform '" +:+ platformId +:+ "' was not found."))) /\
  (forall info,
     get_property registered platformId = Some info ->
     instance info = None ->
     getPlatform registered platformId =
       inl (Error ("The requested platform '" +:+ platformId +:+ "' was not loaded."))) /\
  getPlatform (registeredPlatforms initial_state) platformId =
    inl (Error ("The requested platform '" +:+ platformId +:+ "' was not found.")).
Proof.
  intros Hown. unfold getPlatform, get. repeat split.
  - by intros info i -> ->.
  - intros ->. by rewrite decide_False.
  - by intros info -> ->.
  - simpl. by rewrite decide_False.
Qed.

Lemma getPlatform_outcomes_witness :
  (("a" ∉ Object_prototype) /\ ("b" ∉ Object_prototype) /\
   ("c" ∉ Object_prototype)) /\
  getPlatform half_loaded "a" = inr sample_instance /\
  getPlatform half_loaded "c" =
    inl (Error "The requested platform 'c' was not found.") /\
  getPlatform half_loaded "b" =
    inl (Error "The requested platform 'b' was not loaded.") /\
  getPlatform (registeredPlatforms initial_state) "a" =
    inl (Error "The requested platform 'a' was not found.").
Proof.
  assert ("a" ∉ Object_prototype) as Ha.
  { apply (bool_decide_unpack _). vm_compute. exact I. }
  assert ("b" ∉ Object_prototype) as Hb.
  { apply (bool_decide_unpack _). vm_compute. exact I. }
  assert ("c" ∉ Object_prototype) as Hc.
  { apply (bool_decide_unpack _). vm_compute. exact I. }
  split; [by repeat split|].
  split; [|split; [|split]].
  - exact (proj1 (getPlatform_outcomes half_loaded "a" Ha) _ _ eq_refl eq_refl).
  - exact (proj1 (proj2 (getPlatform_outcomes half_loaded "c" Hc)) eq_refl).
  - exact (proj1 (proj2 (proj2 (getPlatform_outcomes half_loaded "b" Hb)))
             _ eq_refl eq_refl).
  - exact (proj2 (proj2 (proj2 (getPlatform_outcomes half_loaded "a" Ha)))).
Defined.

(** C9, as stated, fails in its last part: there is no condition of its own
    for a registry that was never enabled.  Before any [enablePlatforms],
    [getPlatform] throws the not-found error, the same error it throws
    after [enablePlatforms] for an id that the configuration lacks. *)
Lemma getPlatform_before_enable_is_not_found :
  getPlatform (registeredPlatforms initial_state) "windows" =
    inl (Error "The requested platform 'windows' was not found.") /\
  (enablePlatforms None "platforms.json" (Some sample_config) initial_state).1 = inr tt /\
  getPlatform
    (registeredPlatforms
       (enablePlatforms None "platforms.json" (Some sample_config) initial_state).2)
    "windows" =
  getPlatform (registeredPlatforms initial_state) "windows".
Proof. repeat split. Qed.

(** ** The batch loader: one step of the reduction *)

Lemma add_events_nil s : add_events s [] [] = s.
Proof. destruct s. unfold add_events. simpl. by rewrite !app_nil_r. Qed.

Lemma add_events_add s evs lat evs' lat' :
  add_events (add_events s evs lat) evs' lat'
  = add_events s (evs ++ evs') (lat ++ lat').
Proof. unfold add_events. simpl. by rewrite !app_assoc. Qed.

Lemma then_M_spec {A B} (p : Promise A) (f : Callback A B) s :
  then_M p f s = ((then_ p f).1, add_events s [] (then_ p f).2).
Proof.
  unfold then_M, add_events. destruct (then_ p f) as [q evs]. simpl.
  by rewrite app_nil_r.
Qed.

Lemma emit_spec e s : emit e s = (tt, add_events s [e] []).
Proof. unfold emit, add_events. by rewrite app_nil_r. Qed.

Lemma then_pure_no_events {A B} (p : Promise A) (f : Callback A B) :
  (forall t a, (f t a).1 = []) -> (then_ p f).2 = [].
Proof.
  intros Hf. unfold then_. destruct p as [[t [a|e]]|]; simpl; try done.
  specialize (Hf (S t) a). destruct (f (S t) a) as [evs q]. simpl in *. by subst.
Qed.

Lemma getPlatformModule_effects W now name source s :
  exists p evs lat,
    getPlatformModule W now (Some name) source s = (p, add_events s evs lat) /\
    resolution_calls name evs /\ second_attempt name lat.
Proof.
  unfold getPlatformModule, resolution_calls, second_attempt.
  destruct (truthy (Some name)) as [name'|] eqn:Hname.
  - assert (name' = name) as ->.
    { simpl in Hname. by case_decide; simplify_eq. }
    destruct (truthy source) as [src|].
    + unfold bind. rewrite emit_spec.
      destruct (require W now name) as [err|module].
      * case_decide.
        -- rewrite emit_spec, then_M_spec, !add_events_add. simpl.
           eexists _, _, _. split; [reflexivity|]. split; [eauto|].
           unfold then_.
           destruct (queuePackageInstallation W now name src) as [[tq [[]|e]]|];
             simpl; eauto.
        -- eexists _, [require_call name], []. split; [reflexivity|]. eauto.
      * eexists _, [require_call name], []. split; [reflexivity|]. eauto.
    + eexists _, [], []. rewrite add_events_nil. eauto.
  - eexists _, [], []. rewrite add_events_nil. eauto.
Qed.

Lemma loadPlatform_effects W now name source s :
  exists p evs lat,
    loadPlatform W now (Some name) source s
      = (p, add_events s (loading name :: evs) lat) /\
    resolution_calls name evs /\ second_attempt name lat.
Proof.
  unfold loadPlatform, bind. rewrite emit_spec.
  change (log_debug _) with (loading name).
  destruct (getPlatformModule_effects W now name source (add_events s [loading name] []))
    as (p & evs & lat & -> & Hevs & Hlat).
  rewrite then_M_spec, !add_events_add.
  rewrite (then_pure_no_events p get_Platform) by done.
  rewrite !app_nil_r. simpl. eauto 10.
Qed.

Lemma then_make_module {A} (p : Promise A) name platformList
    (f : Callback A LoadedModule) :
  (forall t a, exists Platform,
     f t a = ([], Q_resolve t {| module_id := name; module_Platform := Platform;
                                  module_platforms := platformList |})) ->
  task_for name platformList (then_ p f).1.
Proof.
  intros Hf t m Htask.
  apply then_fulfilled_inv in Htask as (t0 & a & evs & tq & -> & Hcall & ->).
  destruct (Hf (S t0) a) as [Platform Heq]. rewrite Heq in Hcall.
  by injection Hcall as <- <- <-.
Qed.

Lemma package_of_get registered platformId :
  match get (get_property registered platformId) platformId with
  | own_property info => truthy (packageName info)
  | inherited_property | no_property => None
  end = package_of registered platformId.
Proof.
  unfold package_of, get.
  destruct (get_property registered platformId) as [info|]; [done|].
  by case_decide.
Qed.

(** The four ways of the reducer. *)
Lemma reducer_cases W now acc platformId :
  let registered := registeredPlatforms (loop_state acc) in
  (package_of registered platformId = None /\
   reducer W now acc platformId =
     inr {| taskList := taskList acc ++ [Q_reject now (not_registered platformId)];
            platformMap := platformMap acc;
            arrays := arrays acc;
            loop_state := loop_state acc;
            thrown := thrown acc |}) \/
  (exists name platformList,
     package_of registered platformId = Some name /\
     platformMap acc !! name = Some platformList /\
     reducer W now acc platformId =
       inr {| taskList := taskList acc;
              platformMap := platformMap acc;
              arrays := push platformList platformId (arrays acc);
              loop_state := loop_state acc;
              thrown := thrown acc |}) \/
  (exists name task evs lat,
     package_of registered platformId = Some name /\
     platformMap acc !! name = None /\
     (name ∉ Object_prototype) /\
     task_for name (length (arrays acc)) task /\
     resolution_calls name evs /\ second_attempt name lat /\
     reducer W now acc platformId =
       inr {| taskList := taskList acc ++ [task];
              platformMap := <[name := length (arrays acc)]> (platformMap acc);
              arrays := push (length (arrays acc)) platformId (arrays acc ++ [[]]);
              loop_state := add_events (loop_state acc) (loading name :: evs) lat;
              thrown := thrown acc |}) \/
  (exists name,
     package_of registered platformId = Some name /\
     platformMap acc !! name = None /\
     (name ∈ Object_prototype) /\
     reducer W now acc platformId =
       inl (TypeError "platformList.push is not a function")).
Proof.
  intros registered. unfold reducer. fold registered.
  rewrite package_of_get.
  destruct (package_of registered platformId) as [name|] eqn:Hpkg.
  - destruct (platformMap acc !! name) as [platformList|] eqn:Hmap.
    + right; left. by exists name, platformList.
    + cbn [get]. destruct (decide (name ∈ Object_prototype)) as [Hproto|Hproto].
      * right; right; right. by exists name.
      * right; right; left.
        match goal with
        | |- context [loadPlatform W now (Some name) ?src (loop_state acc)] =>
            destruct (loadPlatform_effects W now name src (loop_state acc))
              as (p & evs & lat & -> & Hevs & Hlat)
        end.
        rewrite then_M_spec, add_events_add.
        rewrite (then_pure_no_events p (make_module name (length (arrays acc))))
          by done.
        rewrite !app_nil_r.
        eexists name, _, evs, lat.
        split; [done|]. split; [done|]. split; [done|]. split; [|done].
        apply then_make_module. intros t a. by eexists.
  - left. done.
Qed.

(** ** The batch loader: the whole reduction *)

Lemma reducer_thrown W now acc platformId acc' :
  reducer W now acc platformId = inr acc' -> thrown acc' = thrown acc.
Proof.
  destruct (reducer_cases W now acc platformId)
    as [[_ ->] | [(n & l & _ & _ & ->) | [(n & t & e & l & _ & _ & _ & _ & _ & _ & ->)
      | (n & _ & _ & _ & ->)]]]; by intros [= <-].
Qed.

Lemma reduce_snoc W now platforms platformId acc :
  thrown acc = None ->
  reduce W now (platforms ++ [platformId]) acc =
  match thrown (reduce W now platforms acc) with
  | Some _ => reduce W now platforms acc
  | None =>
      match reducer W now (reduce W now platforms acc) platformId with
      | inr acc' => acc'
      | inl err => stopped (reduce W now platforms acc) err
      end
  end.
Proof.
  revert acc. induction platforms as [|x platforms IH]; intros acc Hacc; simpl.
  - by rewrite Hacc.
  - destruct (reducer W now acc x) as [err|acc'] eqn:Hstep; [done|].
    apply IH. by rewrite (reducer_thrown _ _ _ _ _ Hstep).
Qed.

Lemma load_tasks_snoc W now platforms platformId s :
  load_tasks W now (platforms ++ [platformId]) s =
  match thrown (load_tasks W now platforms s) with
  | Some _ => load_tasks W now platforms s
  | None =>
      match reducer W now (load_tasks W now platforms s) platformId with
      | inr acc' => acc'
      | inl err => stopped (load_tasks W now platforms s) err
      end
  end.
Proof. unfold load_tasks. by apply reduce_snoc. Qed.

(** A reduction that went through went through for its first ids. *)
Lemma load_tasks_snoc_returns W now platforms platformId s :
  thrown (load_tasks W now (platforms ++ [platformId]) s) = None ->
  thrown (load_tasks W now platforms s) = None /\
  reducer W now (load_tasks W now platforms s) platformId
    = inr (load_tasks W now (platforms ++ [platformId]) s).
Proof.
  rewrite load_tasks_snoc.
  destruct (thrown (load_tasks W now platforms s)) as [e|] eqn:Hthrown.
  - by rewrite Hthrown.
  - by destruct (reducer W now (load_tasks W now platforms s) platformId).
Qed.

Lemma loading_inj name1 name2 : loading name1 = loading name2 -> name1 = name2.
Proof. unfold loading. simpl. by intros [=]. Qed.

Lemma count_app e evs1 evs2 : count e (evs1 ++ evs2) = count e evs1 + count e evs2.
Proof. unfold count. by rewrite filter_app, length_app. Qed.

Lemma count_not_elem e evs : e ∉ evs -> count e evs = 0.
Proof.
  intros Hevs. unfold count.
  induction evs as [|x evs IH]; [done|].
  rewrite filter_cons_False.
  - apply IH. intros Hin. apply Hevs. by right.
  - intros ->. apply Hevs. by left.
Qed.

Lemma count_loading_step name n calls :
  resolution_calls n calls ->
  count (loading name) (loading n :: calls) = if decide (n = name) then 1 else 0.
Proof.
  unfold count. intros Hcalls.
  assert (filter (fun x => x = loading name) calls = []) as Hno.
  { destruct Hcalls as [-> | [-> | [src ->]]]; try done;
      rewrite ?filter_cons_False by discriminate; done. }
  case_decide as Hn.
  - subst. rewrite filter_cons_True by done. by rewrite Hno.
  - rewrite filter_cons_False; [by rewrite Hno|].
    intros Heq. by apply loading_inj in Heq.
Qed.

Lemma count_require_step name n calls :
  resolution_calls n calls ->
  count (require_call name) (loading n :: calls) <= if decide (n = name) then 1 else 0.
Proof.
  unfold count. intros Hcalls.
  rewrite filter_cons_False by discriminate.
  case_decide as Hn.
  - subst. destruct Hcalls as [-> | [-> | [src ->]]]; simpl; [lia | |].
    + by rewrite filter_cons_True.
    + rewrite filter_cons_True by done. by rewrite filter_cons_False.
  - destruct Hcalls as [-> | [-> | [src ->]]]; simpl; [lia | |].
    + rewrite filter_cons_False by congruence. done.
    + rewrite filter_cons_False by congruence. by rewrite filter_cons_False.
Qed.

Lemma no_flush_step n calls lat :
  resolution_calls n calls -> second_attempt n lat ->
  (installQueuedPackages_call ∉ loading n :: calls) /\
  Forall (fun te => exists name, te.2 = require_call name) lat.
Proof.
  intros Hcalls Hlat. split.
  - intros Hin. apply elem_of_cons in Hin as [Heq | Hin]; [discriminate|].
    destruct Hcalls as [-> | [-> | [src ->]]].
    + by apply not_elem_of_nil in Hin.
    + apply list_elem_of_singleton in Hin. discriminate.
    + apply elem_of_cons in Hin as [Heq | Hin]; [discriminate|].
      apply list_elem_of_singleton in Hin. discriminate.
  - destruct Hlat as [-> | [t ->]]; repeat constructor. by exists n.
Qed.

Lemma backed_by_snoc registered name seen id :
  backed_by registered name (seen ++ [id]) =
  backed_by registered name seen ++
    (if decide (package_of registered id = Some name) then [id] else []).
Proof.
  unfold backed_by. rewrite filter_app. reflexivity.
Qed.

Lemma backed_by_nil registered name seen :
  (forall id, id ∈ seen -> package_of registered id <> Some name) ->
  backed_by registered name seen = [].
Proof.
  unfold backed_by. induction seen as [|x seen IH]; intros Hall; [done|].
  rewrite filter_cons_False.
  - apply IH. intros id Hid. apply Hall. by right.
  - apply Hall. by left.
Qed.

Lemma push_lookup_eq platformList id store l :
  store !! platformList = Some l ->
  push platformList id store !! platformList = Some (l ++ [id]).
Proof. intros H. unfold push. by rewrite list_lookup_alter_eq, H. Qed.

Lemma push_lookup_ne platformList id store j :
  platformList <> j -> push platformList id store !! j = store !! j.
Proof. intros H. unfold push. by rewrite list_lookup_alter_ne. Qed.

Lemma task_of_key_mono registered now seen seen' (map map' : gmap string nat) task key :
  (forall id, id ∈ seen -> id ∈ seen') ->
  (forall name platformList,
     map !! name = Some platformList -> map' !! name = Some platformList) ->
  task_of_key registered now seen map task key ->
  task_of_key registered now seen' map' task key.
Proof.
  intros Hseen Hmap. destruct key as [name|]; simpl.
  - intros (platformList & Hl & Htask). exists platformList. auto.
  - intros (id & Hid & Hpkg & ->). exists id. auto.
Qed.

Lemma registry_add_events s evs lat :
  registeredPlatforms (add_events s evs lat) = registeredPlatforms s.
Proof. done. Qed.

Lemma batch_invariant_nil W now s :
  batch_invariant now s [] (load_tasks W now [] s) [] [] [].
Proof.
  split; simpl.
  - by rewrite add_events_nil.
  - intros name. rewrite lookup_empty. split; [by intros []|].
    intros (id & Hid & _). by apply not_elem_of_nil in Hid.
  - intros name platformList. by rewrite lookup_empty.
  - intros name1 name2 platformList. by rewrite lookup_empty.
  - constructor.
  - constructor.
  - intros name. rewrite lookup_empty. split; [|by intros []].
    intros Hin. by apply not_elem_of_nil in Hin.
  - intros id Hid. by apply not_elem_of_nil in Hid.
  - split; [apply not_elem_of_nil | constructor].
  - intros name. by rewrite lookup_empty.
  - intros name. by rewrite lookup_empty.
Qed.

(** A step for an id that is not registered. *)
Lemma batch_invariant_unregistered now s seen acc keys evs lat id :
  batch_invariant now s seen acc keys evs lat ->
  package_of (registeredPlatforms s) id = None ->
  batch_invariant now s (seen ++ [id])
    {| taskList := taskList acc ++ [Q_reject now (not_registered id)];
       platformMap := platformMap acc;
       arrays := arrays acc;
       loop_state := loop_state acc;
       thrown := thrown acc |}
    (keys ++ [None]) evs lat.
Proof.
  intros [] Hpkg. split; simpl; try done.
  - intros name. rewrite inv_dom0. split.
    + intros (id' & Hin & Hp). exists id'. split; [|done].
      apply elem_of_app. by left.
    + intros (id' & Hin & Hp). apply elem_of_app in Hin as [Hin | Hin].
      * by exists id'.
      * apply list_elem_of_singleton in Hin. subst. congruence.
  - intros name platformList Hl. rewrite backed_by_snoc.
    rewrite decide_False by congruence. rewrite app_nil_r. by apply inv_arrays0.
  - apply Forall2_app.
    + eapply Forall2_impl; [exact inv_tasks0|]. intros task key.
      apply task_of_key_mono; [|done]. intros id' Hin. apply elem_of_app. by left.
    + constructor; [|constructor]. exists id. split; [|done].
      apply elem_of_app. right. by apply list_elem_of_singleton.
  - rewrite omap_app. simpl. by rewrite app_nil_r.
  - intros name. rewrite <- inv_keys0. rewrite elem_of_app, list_elem_of_singleton.
    split; [intros [H | H]; [done | discriminate] | by left].
  - intros id' Hin Hp. apply elem_of_app.
    apply elem_of_app in Hin as [Hin | Hin].
    + left. by apply inv_rejections0.
    + right. apply list_elem_of_singleton in Hin. subst.
      by apply list_elem_of_singleton.
Qed.

(** A step for an id whose package already has its task. *)
Lemma batch_invariant_known now s seen acc keys evs lat id name platformList :
  batch_invariant now s seen acc keys evs lat ->
  package_of (registeredPlatforms s) id = Some name ->
  platformMap acc !! name = Some platformList ->
  batch_invariant now s (seen ++ [id])
    {| taskList := taskList acc;
       platformMap := platformMap acc;
       arrays := push platformList id (arrays acc);
       loop_state := loop_state acc;
       thrown := thrown acc |}
    keys evs lat.
Proof.
  intros [] Hpkg Hmap. split; simpl; try done.
  - intros name'. rewrite inv_dom0. split.
    + intros (id' & Hin & Hp). exists id'. split; [|done].
      apply elem_of_app. by left.
    + intros (id' & Hin & Hp). apply elem_of_app in Hin as [Hin | Hin].
      * by exists id'.
      * apply list_elem_of_singleton in Hin. subst id'.
        apply inv_dom0. assert (name' = name) as -> by congruence. eauto.
  - intros name' platformList' Hl. rewrite backed_by_snoc.
    destruct (decide (name' = name)) as [-> | Hne].
    + assert (platformList' = platformList) as -> by congruence.
      rewrite decide_True by done.
      apply push_lookup_eq. by apply inv_arrays0.
    + rewrite decide_False by congruence. rewrite app_nil_r.
      rewrite push_lookup_ne; [by apply inv_arrays0|].
      intros <-. apply Hne. by eapply inv_alias0.
  - eapply Forall2_impl; [exact inv_tasks0|]. intros task key.
    apply task_of_key_mono; [|done]. intros id' Hin. apply elem_of_app. by left.
  - intros id' Hin Hp. apply elem_of_app in Hin as [Hin | Hin].
    + by apply inv_rejections0.
    + apply list_elem_of_singleton in Hin. subst. congruence.
Qed.

(** A step for the first id of a package: a task and an array are made. *)
Lemma batch_invariant_new now s seen acc keys evs lat id name task calls lat1 :
  batch_invariant now s seen acc keys evs lat ->
  package_of (registeredPlatforms s) id = Some name ->
  platformMap acc !! name = None ->
  task_for name (length (arrays acc)) task ->
  resolution_calls name calls -> second_attempt name lat1 ->
  batch_invariant now s (seen ++ [id])
    {| taskList := taskList acc ++ [task];
       platformMap := <[name := length (arrays acc)]> (platformMap acc);
       arrays := push (length (arrays acc)) id (arrays acc ++ [[]]);
       loop_state := add_events (loop_state acc) (loading name :: calls) lat1;
       thrown := thrown acc |}
    (keys ++ [Some name]) (evs ++ loading name :: calls) (lat ++ lat1).
Proof.
  intros [] Hpkg Hmap Htask Hcalls Hlat1.
  assert (backed_by (registeredPlatforms s) name seen = []) as Hnone.
  { apply backed_by_nil. intros x Hx Hp.
    assert (is_Some (platformMap acc !! name)) as [r Hr]; [|congruence].
    apply inv_dom0. by exists x. }
  assert (forall name' platformList,
            platformMap acc !! name' = Some platformList ->
            platformList < length (arrays acc)) as Hbound.
  { intros name' platformList Hl. eapply lookup_lt_Some. by apply inv_arrays0. }
  split; simpl.
  - by rewrite inv_state0, add_events_add.
  - intros name'. rewrite lookup_insert. case_decide as Hn.
    + subst name'. split; [|by eauto]. intros _. exists id. split; [|done].
      apply elem_of_app. right. by apply list_elem_of_singleton.
    + rewrite inv_dom0. split.
      * intros (id' & Hin & Hp). exists id'. split; [|done].
        apply elem_of_app. by left.
      * intros (id' & Hin & Hp). apply elem_of_app in Hin as [Hin | Hin].
        -- by exists id'.
        -- apply list_elem_of_singleton in Hin. subst id'. congruence.
  - intros name' platformList. rewrite lookup_insert, backed_by_snoc.
    case_decide as Hn.
    + subst name'. intros [= <-]. rewrite decide_True by done. rewrite Hnone.
      apply push_lookup_eq. apply list_lookup_middle. done.
    + intros Hl. rewrite decide_False by congruence. rewrite app_nil_r.
      pose proof (Hbound _ _ Hl) as Hlt.
      rewrite push_lookup_ne by lia. rewrite lookup_app_l by done.
      by apply inv_arrays0.
  - intros name1 name2 platformList. rewrite !lookup_insert.
    repeat case_decide; subst.
    + done.
    + intros [= <-] Hl. apply Hbound in Hl. lia.
    + intros Hl [= <-]. apply Hbound in Hl. lia.
    + apply inv_alias0.
  - apply Forall2_app.
    + eapply Forall2_impl; [exact inv_tasks0|]. intros task' key.
      apply task_of_key_mono.
      * intros id' Hin. apply elem_of_app. by left.
      * intros name' platformList Hl. rewrite lookup_insert_ne; [done|].
        intros <-. congruence.
    + constructor; [|constructor]. exists (length (arrays acc)).
      split; [by rewrite lookup_insert_eq | done].
  - rewrite omap_app. simpl. apply NoDup_app. split; [done|]. split.
    + intros x Hx Hin. apply list_elem_of_singleton in Hin. subst x.
      apply list_elem_of_omap in Hx as (key & Hkey & Heq). simpl in Heq. subst key.
      apply inv_keys0 in Hkey as [r Hr]. congruence.
    + apply NoDup_singleton.
  - intros name'. rewrite elem_of_app, list_elem_of_singleton, lookup_insert.
    case_decide as Hn.
    + subst name'. split; [by eauto | by right].
    + rewrite <- inv_keys0. split; [intros [H | H]; [done | congruence] | by left].
  - intros id' Hin Hp. apply elem_of_app. left.
    apply elem_of_app in Hin as [Hin | Hin].
    + by apply inv_rejections0.
    + apply list_elem_of_singleton in Hin. subst. congruence.
  - destruct inv_no_flush0 as [Hevs Hlat].
    destruct (no_flush_step name calls lat1 Hcalls Hlat1) as [Hevs1 Hlat1'].
    split.
    + intros Hin. apply elem_of_app in Hin as [Hin | Hin]; auto.
    + by apply Forall_app.
  - intros name'. rewrite count_app, count_loading_step by done.
    rewrite inv_loading0, lookup_insert. clear -Hmap.
    case_decide as Hn; [subst name'; by rewrite Hmap|].
    destruct (platformMap acc !! name'); lia.
  - intros name'. rewrite count_app, lookup_insert.
    pose proof (count_require_step name' name calls Hcalls) as Hstep.
    pose proof (inv_require0 name') as Hold. clear -Hmap Hstep Hold.
    case_decide as Hn; [subst name'; rewrite Hmap in Hold; lia|].
    destruct (platformMap acc !! name'); lia.
Qed.

(** The invariant holds of a reduction that went through. *)
Lemma load_tasks_invariant W now s platforms :
  thrown (load_tasks W now platforms s) = None ->
  exists keys evs lat,
    batch_invariant now s platforms (load_tasks W now platforms s) keys evs lat.
Proof.
  induction platforms as [|id seen IH] using rev_ind; intros Hreturns.
  - exists [], [], []. apply batch_invariant_nil.
  - apply load_tasks_snoc_returns in Hreturns as [Hseen Hstep].
    destruct (IH Hseen) as (keys & evs & lat & Hinv).
    pose proof (inv_state _ _ _ _ _ _ _ Hinv) as Hstate.
    pose proof (reducer_cases W now (load_tasks W now seen s) id) as Hcases.
    simpl in Hcases. rewrite Hstate, registry_add_events in Hcases.
    rewrite <- Hstate in Hcases. rewrite Hstep in Hcases.
    destruct Hcases as [[Hpkg [= ->]] | [(name & l & Hpkg & Hmap & [= ->])
      | [(name & task & calls & lat1 & Hpkg & Hmap & _ & Htask & Hcalls & Hlat1 & [= ->])
      | (name & _ & _ & _ & [=])]]].
    + eexists _, _, _. by apply batch_invariant_unregistered.
    + eexists _, _, _. by eapply batch_invariant_known.
    + eexists _, _, _. by eapply batch_invariant_new.
Qed.

(** A reduction ends where it went through for the first ids of the batch:
    when it is stopped, nothing but the error is added to what these ids
    made. *)
Lemma load_tasks_stops W now s platforms :
  exists seen,
    seen `prefix_of` platforms /\
    thrown (load_tasks W now seen s) = None /\
    taskList (load_tasks W now platforms s) = taskList (load_tasks W now seen s) /\
    arrays (load_tasks W now platforms s) = arrays (load_tasks W now seen s) /\
    loop_state (load_tasks W now platforms s) = loop_state (load_tasks W now seen s) /\
    (thrown (load_tasks W now platforms s) = None -> seen = platforms).
Proof.
  induction platforms as [|id front IH] using rev_ind.
  - by exists [].
  - destruct IH as (seen & Hprefix & Hseen & Htasks & Harrays & Hstate & Hall).
    rewrite load_tasks_snoc.
    destruct (thrown (load_tasks W now front s)) as [e|] eqn:Hthrown.
    + exists seen. rewrite Hthrown.
      split; [by apply prefix_app_r|]. by repeat split.
    + specialize (Hall eq_refl). subst seen.
      destruct (reducer W now (load_tasks W now front s) id) as [err|acc'] eqn:Hstep.
      * exists front. split; [by apply prefix_app_r|]. by repeat split.
      * exists (front ++ [id]). split; [done|].
        rewrite load_tasks_snoc, Hthrown, Hstep.
        split; [by rewrite (reducer_thrown _ _ _ _ _ Hstep)|]. by repeat split.
Qed.

(** ** The batch loader: [loadPlatforms] *)

(** A call whose reduction goes through returns its promise. *)
Lemma loadPlatforms_unfold W now platforms s :
  thrown (load_tasks W now platforms s) = None ->
  let acc := load_tasks W now platforms s in
  let loaded := then_ (Q_all now (taskList acc)) (instantiate W (arrays acc)) in
  loadPlatforms W now platforms s =
    (inr (finally_ loaded.1 (fun t => Q_allSettled t (taskList acc))),
     add_events (loop_state acc) [installQueuedPackages_call] loaded.2).
Proof.
  intros Hreturns acc loaded. unfold loadPlatforms, bind, ret. rewrite Hreturns.
  rewrite emit_spec, then_M_spec, add_events_add. by rewrite app_nil_r.
Qed.

(** A call whose reduction is stopped throws, there and then. *)
Lemma loadPlatforms_throws W now platforms s err :
  thrown (load_tasks W now platforms s) = Some err ->
  loadPlatforms W now platforms s
    = (inl err, loop_state (load_tasks W now platforms s)).
Proof. intros Hthrown. unfold loadPlatforms. by rewrite Hthrown. Qed.

Lemma loadPlatforms_returns W now platforms s p :
  (loadPlatforms W now platforms s).1 = inr p ->
  thrown (load_tasks W now platforms s) = None.
Proof.
  destruct (thrown (load_tasks W now platforms s)) as [err|] eqn:Hthrown; [|done].
  by rewrite (loadPlatforms_throws _ _ _ _ _ Hthrown).
Qed.

Lemma create_instances_events W t store modules :
  Forall (fun e => exists ctor id platforms, e = new_call ctor id platforms)
    (create_instances W t store modules).1.
Proof.
  induction modules as [|m modules IH]; simpl; [constructor|].
  destruct (module_Platform m) as [ctor|]; [|constructor].
  destruct (construct W t ctor _ _) as [err|].
  { constructor; [by eauto | constructor]. }
  destruct (create_instances W t store modules) as [evs r]. simpl in *.
  constructor; [by eauto | done].
Qed.

Lemma create_instances_inr W t store modules evs instances :
  create_instances W t store modules = (evs, inr instances) ->
  Forall2 (fun m inst => exists ctor,
             module_Platform m = Some ctor /\
             inst = {| inst_constructor := ctor;
                       inst_id := module_id m;
                       inst_platforms := default [] (store !! module_platforms m) |})
    modules instances.
Proof.
  revert evs instances.
  induction modules as [|m modules IH]; simpl; intros evs instances.
  - intros [= <- <-]. constructor.
  - destruct (module_Platform m) as [ctor|] eqn:Hctor; [|discriminate].
    destruct (construct W t ctor _ _) as [err|]; [discriminate|].
    destruct (create_instances W t store modules) as [evs' [err|instances']];
      [discriminate|].
    intros [= <- <-]. constructor; [by eauto|]. by eapply IH.
Qed.

Lemma finally_fulfilled_inv {A B} (p : Promise A) (f : nat -> Promise B) t (a : A) :
  finally_ p f = Some (t, Fulfilled a) -> exists t0, p = Some (t0, Fulfilled a).
Proof.
  unfold finally_. destruct p as [[t0 o]|]; [|discriminate].
  destruct (f (S t0)) as [[tq [b|e]]|]; try discriminate.
  intros [= <- ->]. eauto.
Qed.

Lemma Q_all_fulfilled_inv {A} now (ps : list (Promise A)) t vs :
  Q_all now ps = Some (t, Fulfilled vs) ->
  Forall2 (fun p v => exists tp, p = Some (tp, Fulfilled v) /\ tp <= t) ps vs.
Proof.
  unfold Q_all. destruct (first_rejection ps) as [[t' e]|]; [discriminate|].
  destruct (all_fulfilled now ps) as [[t' vs']|] eqn:Hall; [|discriminate].
  intros [= <- <-]. by eapply all_fulfilled_values.
Qed.

(** What a fulfilled batch returns: the instances made from the values of
    the tasks, one for one. *)
Lemma loadPlatforms_fulfilled_inv W now platforms s tick instances :
  (loadPlatforms W now platforms s).1 = inr (Some (tick, Fulfilled instances)) ->
  let acc := load_tasks W now platforms s in
  exists modules,
    Forall2 (fun task m => exists tp, task = Some (tp, Fulfilled m))
      (taskList acc) modules /\
    Forall2 (fun m inst => exists ctor,
               module_Platform m = Some ctor /\
               inst = {| inst_constructor := ctor;
                         inst_id := module_id m;
                         inst_platforms :=
                           default [] (arrays acc !! module_platforms m) |})
      modules instances.
Proof.
  intros Hp acc. pose proof (loadPlatforms_returns _ _ _ _ _ Hp) as Hreturns.
  rewrite loadPlatforms_unfold in Hp by done. simpl in Hp. fold acc in Hp.
  injection Hp as Hp.
  apply finally_fulfilled_inv in Hp as [t0 Hp].
  apply then_fulfilled_inv in Hp as (t1 & modules & evs & tq & Hall & Hcall & _).
  exists modules. split.
  - apply Q_all_fulfilled_inv in Hall. eapply Forall2_impl; [exact Hall|].
    intros task m (tp & -> & _). eauto.
  - unfold instantiate, Q_resolve, Q_reject in Hcall.
    destruct (create_instances W (S t1) (arrays acc) modules)
      as [evs' [err|instances']] eqn:Hc;
      simpl in Hcall; [discriminate|].
    injection Hcall as <- <- <-. by eapply create_instances_inr.
Qed.

(** In a fulfilled batch every task stands for a package, and the values of
    the tasks name these packages and their arrays. *)
Lemma fulfilled_tasks_keys registered now seen (map : gmap string nat)
    (tasks : list (Promise LoadedModule)) keys modules :
  Forall2 (task_of_key registered now seen map) tasks keys ->
  Forall2 (fun task m => exists tp, task = Some (tp, Fulfilled m)) tasks modules ->
  keys = (fun m => Some (module_id m)) <$> modules /\
  Forall (fun m => map !! module_id m = Some (module_platforms m)) modules.
Proof.
  intros Hkeys. revert modules.
  induction Hkeys as [|task key tasks keys Hkey _ IH]; intros modules Hm.
  - apply Forall2_nil_inv_l in Hm as ->. split; [done | constructor].
  - apply Forall2_cons_inv_l in Hm as (m & modules' & (tp & ->) & Hm & ->).
    destruct (IH _ Hm) as [-> Hall]. destruct key as [name|]; simpl in Hkey.
    + destruct Hkey as (l & Hl & Htask).
      destruct (Htask tp m eq_refl) as [<- <-].
      split; [done | by constructor].
    + destruct Hkey as (id & _ & _ & Heq). discriminate.
Qed.

Lemma omap_Some_fmap {A B} (f : A -> B) (l : list A) :
  omap id ((fun a => Some (f a)) <$> l) = f <$> l.
Proof. induction l as [|a l IH]; [done|]. simpl. by f_equal. Qed.

(** The instances of a fulfilled batch: their ids are the packages that
    have a task, each once, and each instance holds the ids of the batch
    that its package backs. *)
Lemma loadPlatforms_instances W now platforms s tick instances :
  (loadPlatforms W now platforms s).1 = inr (Some (tick, Fulfilled instances)) ->
  NoDup (inst_id <$> instances) /\
  (forall name,
     (exists id, id ∈ platforms /\ package_of (registeredPlatforms s) id = Some name) ->
     exists ctor,
       {| inst_constructor := ctor; inst_id := name;
          inst_platforms := backed_by (registeredPlatforms s) name platforms |}
         ∈ instances) /\
  (forall id, id ∈ platforms -> is_Some (package_of (registeredPlatforms s) id)).
Proof.
  intros Hp. pose proof (loadPlatforms_returns _ _ _ _ _ Hp) as Hreturns.
  apply loadPlatforms_fulfilled_inv in Hp. simpl in Hp.
  destruct Hp as (modules & Htasks & Hinst).
  destruct (load_tasks_invariant W now s platforms Hreturns)
    as (keys & evs & lat & Hinv).
  destruct Hinv. set (acc := load_tasks W now platforms s) in *.
  destruct (fulfilled_tasks_keys _ _ _ _ _ _ _ inv_tasks0 Htasks) as [-> Hmods].
  assert (inst_id <$> instances = module_id <$> modules) as Hids.
  { clear -Hinst. induction Hinst as [|m inst ms insts (ctor & _ & ->) _ IH];
      [done|]. simpl. by f_equal. }
  split; [|split].
  - rewrite Hids. by rewrite omap_Some_fmap in inv_keys_NoDup0.
  - intros name Hname. apply inv_dom0 in Hname. apply inv_keys0 in Hname.
    apply list_elem_of_fmap in Hname as (m & [= ->] & Hm).
    apply list_elem_of_lookup in Hm as [i Hi].
    destruct (Forall2_lookup_l _ _ _ _ _ Hinst Hi) as (inst & Hinsti & ctor & _ & ->).
    exists ctor. apply list_elem_of_lookup. exists i.
    rewrite Forall_lookup in Hmods. specialize (Hmods i m Hi). simpl in Hmods.
    apply inv_arrays0 in Hmods. by rewrite Hmods in Hinsti.
  - intros id Hid.
    destruct (package_of (registeredPlatforms s) id) as [name|] eqn:Hpkg; [by eauto|].
    pose proof (inv_rejections0 id Hid Hpkg) as Hrej.
    apply list_elem_of_lookup in Hrej as [i Hi].
    destruct (Forall2_lookup_l _ _ _ _ _ Htasks Hi) as (m & _ & tp & Heq).
    discriminate.
Qed.

(** The state a call leaves: the calls of the reduction for the ids it
    went through and, when the call returns, the final
    [installQueuedPackages] and the calls of the callback that awaits the
    tasks. *)
Lemma loadPlatforms_state W now platforms s :
  exists seen keys evs lat,
    seen `prefix_of` platforms /\
    batch_invariant now s seen (load_tasks W now seen s) keys evs lat /\
    match (loadPlatforms W now platforms s).1 with
    | inr _ =>
        seen = platforms /\
        (loadPlatforms W now platforms s).2 =
          add_events s (evs ++ [installQueuedPackages_call])
            (lat ++ (then_ (Q_all now (taskList (load_tasks W now platforms s)))
                       (instantiate W (arrays (load_tasks W now platforms s)))).2)
    | inl _ => (loadPlatforms W now platforms s).2 = add_events s evs lat
    end.
Proof.
  destruct (load_tasks_stops W now s platforms)
    as (seen & Hprefix & Hseen & _ & _ & Hstate & Hall).
  destruct (load_tasks_invariant W now s seen Hseen) as (keys & evs & lat & Hinv).
  exists seen, keys, evs, lat. split; [done|]. split; [done|].
  pose proof (inv_state _ _ _ _ _ _ _ Hinv) as Hs.
  destruct (thrown (load_tasks W now platforms s)) as [err|] eqn:Hthrown.
  - rewrite (loadPlatforms_throws _ _ _ _ _ Hthrown). simpl. by rewrite Hstate.
  - rewrite (loadPlatforms_unfold _ _ _ _ Hthrown). simpl.
    split; [by apply Hall|]. by rewrite Hstate, Hs, add_events_add.
Qed.

(** C1, as the code has it.  In a batch with an id registered with a
    package, in particular with two or more ids registered with it,
    [loadPlatform] is called at most once for the package, and once when
    the call returns its promise: its line is logged once and the package
    is required at most once in the turn of the call.  When the batch is
    fulfilled, no two instances of the result have the same id, and the
    instance whose id is the package was constructed with the full list of
    the ids of the batch that the package backs. *)
Theorem loadPlatforms_shares_module W now platforms s name :
  (exists id, id ∈ platforms /\ package_of (registeredPlatforms s) id = Some name) ->
  (exists created,
     trace (loadPlatforms W now platforms s).2 = trace s ++ created /\
     count (loading name) created <= 1 /\
     count (require_call name) created <= 1 /\
     forall p, (loadPlatforms W now platforms s).1 = inr p ->
               count (loading name) created = 1) /\
  (forall tick instances,
     (loadPlatforms W now platforms s).1 = inr (Some (tick, Fulfilled instances)) ->
     NoDup (inst_id <$> instances) /\
     exists ctor,
       {| inst_constructor := ctor; inst_id := name;
          inst_platforms := backed_by (registeredPlatforms s) name platforms |}
         ∈ instances).
Proof.
  intros Hname. split.
  - destruct (loadPlatforms_state W now platforms s)
      as (seen & keys & evs & lat & _ & Hinv & Hstate).
    destruct Hinv. specialize (inv_loading0 name). specialize (inv_require0 name).
    assert (count (loading name) [installQueuedPackages_call] = 0) as Hl0 by done.
    assert (count (require_call name) [installQueuedPackages_call] = 0) as Hr0 by done.
    destruct ((loadPlatforms W now platforms s).1) as [err|p].
    + exists evs. rewrite Hstate. simpl. split; [done|].
      destruct (platformMap (load_tasks W now seen s) !! name);
        repeat split; (lia || done).
    + destruct Hstate as [-> ->]. exists (evs ++ [installQueuedPackages_call]).
      simpl. split; [done|]. apply inv_dom0 in Hname as [platformList Hl].
      rewrite Hl in inv_loading0, inv_require0.
      rewrite !count_app, Hl0, Hr0. repeat split; lia.
  - intros tick instances Hp.
    destruct (loadPlatforms_instances _ _ _ _ _ _ Hp) as (Hnd & Hin & _). auto.
Qed.

Lemma loadPlatforms_shares_module_witness :
  (exists id, id ∈ ["a"; "b"; "c"] /\ package_of sample_config id = Some "modA") /\
  (exists created,
     trace (loadPlatforms world_installing 0 ["a"; "b"; "c"] sample_state).2
       = [] ++ created /\
     count (loading "modA") created <= 1 /\
     count (require_call "modA") created <= 1 /\
     forall p,
       (loadPlatforms world_installing 0 ["a"; "b"; "c"] sample_state).1 = inr p ->
       count (loading "modA") created = 1) /\
  (forall tick instances,
     (loadPlatforms world_installing 0 ["a"; "b"; "c"] sample_state).1
       = inr (Some (tick, Fulfilled instances)) ->
     NoDup (inst_id <$> instances) /\
     exists ctor,
       {| inst_constructor := ctor; inst_id := "modA";
          inst_platforms := ["a"; "b"] |} ∈ instances).
Proof.
  assert (exists id, id ∈ ["a"; "b"; "c"] /\ package_of sample_config id = Some "modA")
    as Hshared.
  { exists "a". split; [left | reflexivity]. }
  split; [exact Hshared|].
  exact (loadPlatforms_shares_module world_installing 0 ["a"; "b"; "c"]
           sample_state "modA" Hshared).
Defined.

(** C1, as stated, fails for a batch that is not fulfilled.  The ids [a]
    and [b] share the package [modA], which is installed and loads; [zz] is
    not registered.  The batch is rejected and no callback runs: no
    instance is constructed, for [a] and [b] either. *)
Lemma loadPlatforms_rejected_makes_no_instance :
  package_of sample_config "a" = Some "modA" /\
  package_of sample_config "b" = Some "modA" /\
  taskList (load_tasks world_installed 0 ["a"; "b"; "zz"] sample_state) =
    [Some (2, Fulfilled {| module_id := "modA";
                           module_Platform := Some "modA.Platform";
                           module_platforms := 0 |});
     Q_reject 0 (not_registered "zz")] /\
  (loadPlatforms world_installed 0 ["a"; "b"; "zz"] sample_state).1 =
    inr (Some (2, Rejected (not_registered "zz"))) /\
  later (loadPlatforms world_installed 0 ["a"; "b"; "zz"] sample_state).2 = [].
Proof. repeat split. Qed.

(** C2, as the code has it.  [loadPlatforms] leaves the registry as it
    found it, so [getPlatform] answers after the load as it did before.
    The instances are handed to the caller: when the batch is fulfilled,
    every id of the batch is registered with a package, and the result
    holds an instance whose id is that package and whose list of platforms
    contains the id. *)
Theorem loadPlatforms_keeps_registry W now platforms s :
  registeredPlatforms (loadPlatforms W now platforms s).2 = registeredPlatforms s /\
  (forall platformId,
     getPlatform (registeredPlatforms (loadPlatforms W now platforms s).2) platformId
     = getPlatform (registeredPlatforms s) platformId) /\
  (forall tick instances,
     (loadPlatforms W now platforms s).1 = inr (Some (tick, Fulfilled instances)) ->
     forall platformId, platformId ∈ platforms ->
     exists inst,
       inst ∈ instances /\
       package_of (registeredPlatforms s) platformId = Some (inst_id inst) /\
       platformId ∈ inst_platforms inst).
Proof.
  assert (registeredPlatforms (loadPlatforms W now platforms s).2
          = registeredPlatforms s) as Hreg.
  { destruct (loadPlatforms_state W now platforms s)
      as (seen & keys & evs & lat & _ & _ & Hstate).
    destruct ((loadPlatforms W now platforms s).1) as [err|p].
    - by rewrite Hstate.
    - destruct Hstate as [_ ->]. done. }
  split; [exact Hreg|]. split; [by rewrite Hreg|].
  intros tick instances Hp id Hid.
  destruct (loadPlatforms_instances _ _ _ _ _ _ Hp) as (_ & Hin & Hall).
  destruct (Hall id Hid) as [name Hname].
  destruct (Hin name) as [ctor Hinst]; [by eauto|].
  eexists. split; [exact Hinst|]. simpl. split; [done|].
  unfold backed_by. by apply list_elem_of_filter.
Qed.

Lemma loadPlatforms_keeps_registry_witness :
  (loadPlatforms world_installing 0 ["a"; "b"; "c"] sample_state).1 =
    inr (Some (10, Fulfilled
      [{| inst_constructor := "modA.Platform"; inst_id := "modA";
          inst_platforms := ["a"; "b"] |};
       {| inst_constructor := "modC.Platform"; inst_id := "modC";
          inst_platforms := ["c"] |}])) /\
  "b" ∈ ["a"; "b"; "c"] /\
  exists inst,
    inst ∈ [{| inst_constructor := "modA.Platform"; inst_id := "modA";
               inst_platforms := ["a"; "b"] |};
            {| inst_constructor := "modC.Platform"; inst_id := "modC";
               inst_platforms := ["c"] |}] /\
    package_of sample_config "b" = Some (inst_id inst) /\
    "b" ∈ inst_platforms inst.
Proof.
  split; [reflexivity|].
  assert ("b" ∈ ["a"; "b"; "c"]) as Hin by (right; left).
  split; [exact Hin|].
  exact (proj2 (proj2 (loadPlatforms_keeps_registry world_installing 0
                         ["a"; "b"; "c"] sample_state))
           10 _ eq_refl "b" Hin).
Defined.

(** C2, as stated, fails.  In the scenario of the specification the batch
    is fulfilled with two instances, and afterwards [getPlatform] still
    throws the not-loaded error for [a] and for [b]: no instance was stored
    in the registry. *)
Lemma loadPlatforms_stores_no_instance :
  (loadPlatforms world_installing 0 ["a"; "b"; "c"] sample_state).1 =
    inr (Some (10, Fulfilled
      [{| inst_constructor := "modA.Platform"; inst_id := "modA";
          inst_platforms := ["a"; "b"] |};
       {| inst_constructor := "modC.Platform"; inst_id := "modC";
          inst_platforms := ["c"] |}])) /\
  getPlatform
    (registeredPlatforms
       (loadPlatforms world_installing 0 ["a"; "b"; "c"] sample_state).2) "a"
    = inl (Error "The requested platform 'a' was not loaded.") /\
  getPlatform
    (registeredPlatforms
       (loadPlatforms world_installing 0 ["a"; "b"; "c"] sample_state).2) "b"
    = inl (Error "The requested platform 'b' was not loaded.").
Proof. repeat split. Qed.

(** C6 fails on the code for a package named like a member of
    [Object.prototype].  With [k] registered with the package
    [constructor], line 68 reads the inherited member, no task is made and
    line 82 throws out of the reduction: the call throws a [TypeError]
    after the calls made for [a], and [installQueuedPackages] is not
    called. *)
Lemma loadPlatforms_throws_before_flush :
  loadPlatforms world_installed 0 ["a"; "k"; "zz"] inherited_state =
    (inl (TypeError "platformList.push is not a function"),
     {| registeredPlatforms := inherited_config;
        trace := [log_debug "Loading platform module: modA"; require_call "modA"];
        later := [] |}) /\
  count installQueuedPackages_call
    (trace (loadPlatforms world_installed 0 ["a"; "k"; "zz"] inherited_state).2) = 0.
Proof. split; reflexivity. Qed.

(** X13.  In a call of [loadPlatforms] that returns its promise,
    [installQueuedPackages] is called once.  It is the last call of the
    turn: the calls before it are those of the reduction that creates the
    tasks, which requires and queues the packages and does not launch the
    installation.  The callbacks that the call registers run in later
    turns and do not launch it either; the one that awaits the tasks and
    constructs the instances runs after the turn of the call. *)
Theorem loadPlatforms_flushes_once W now platforms s p :
  (loadPlatforms W now platforms s).1 = inr p ->
  exists created callbacks,
    trace (loop_state (load_tasks W now platforms s)) = trace s ++ created /\
    trace (loadPlatforms W now platforms s).2
      = trace s ++ created ++ [installQueuedPackages_call] /\
    count installQueuedPackages_call (created ++ [installQueuedPackages_call]) = 1 /\
    later (loadPlatforms W now platforms s).2 = later s ++ callbacks /\
    Forall (fun te => te.2 <> installQueuedPackages_call) callbacks /\
    Forall (fun te => forall ctor id platformList,
              te.2 = new_call ctor id platformList -> now < te.1) callbacks.
Proof.
  intros Hp. apply loadPlatforms_returns in Hp as Hreturns.
  destruct (load_tasks_invariant W now s platforms Hreturns)
    as (keys & evs & lat & Hinv).
  destruct Hinv. destruct inv_no_flush0 as [Hevs Hlat].
  rewrite loadPlatforms_unfold by done. simpl. rewrite inv_state0. simpl.
  eexists evs, _. split; [done|]. split; [by rewrite app_assoc|].
  split; [|split; [by rewrite <- app_assoc|]].
  - rewrite count_app. unfold count.
    assert (filter (fun x => x = installQueuedPackages_call) evs = []) as ->.
    { clear -Hevs. induction evs as [|e evs IH]; [done|].
      rewrite filter_cons_False.
      - apply IH. intros Hin. apply Hevs. by right.
      - intros ->. apply Hevs. by left. }
    done.
  - assert (Forall (fun te : nat * Event =>
                      (exists ctor id platformList,
                         te.2 = new_call ctor id platformList) /\ now < te.1)
              (then_ (Q_all now (taskList (load_tasks W now platforms s)))
                 (instantiate W (arrays (load_tasks W now platforms s)))).2) as Hnew.
    { unfold then_.
      destruct (Q_all now _) as [[t [modules|e]]|] eqn:Hall; simpl;
        try constructor.
      apply Q_all_tick in Hall. unfold instantiate.
      pose proof (create_instances_events W (S t)
                    (arrays (load_tasks W now platforms s)) modules) as Hcalls.
      destruct (create_instances _ _ _ modules) as [evs' r]. simpl in *.
      clear -Hcalls Hall.
      induction Hcalls as [|e evs'' He _ IH]; simpl; constructor; [|exact IH].
      split; [exact He | simpl; lia]. }
    split; apply Forall_app; split.
    + eapply Forall_impl; [exact Hlat|]. intros te [name ->]. discriminate.
    + eapply Forall_impl; [exact Hnew|].
      intros te [(ctor & id & l & ->) _]. discriminate.
    + eapply Forall_impl; [exact Hlat|]. intros te [name ->]. discriminate.
    + eapply Forall_impl; [exact Hnew|]. by intros te [_ Hlt].
Qed.

Lemma loadPlatforms_flushes_once_witness :
  exists p,
    (loadPlatforms world_installing 0 ["a"; "b"; "c"] sample_state).1 = inr p /\
    exists created callbacks,
      trace (loop_state (load_tasks world_installing 0 ["a"; "b"; "c"] sample_state))
        = [] ++ created /\
      trace (loadPlatforms world_installing 0 ["a"; "b"; "c"] sample_state).2
        = [] ++ created ++ [installQueuedPackages_call] /\
      count installQueuedPackages_call (created ++ [installQueuedPackages_call]) = 1 /\
      later (loadPlatforms world_installing 0 ["a"; "b"; "c"] sample_state).2
        = [] ++ callbacks /\
      Forall (fun te => te.2 <> installQueuedPackages_call) callbacks /\
      Forall (fun te => forall ctor id platformList,
                te.2 = new_call ctor id platformList -> 0 < te.1) callbacks.
Proof.
  eexists. split; [reflexivity|].
  exact (loadPlatforms_flushes_once world_installing 0 ["a"; "b"; "c"]
           sample_state _ eq_refl).
Defined.

(** ** Settling *)

Lemma reducer_frame W now acc platformId :
  reducer W now acc platformId =
  match reducer W now {| taskList := []; platformMap := platformMap acc;
                         arrays := arrays acc; loop_state := loop_state acc;
                         thrown := thrown acc |}
          platformId with
  | inr r =>
      inr {| taskList := taskList acc ++ taskList r; platformMap := platformMap r;
             arrays := arrays r; loop_state := loop_state r;
             thrown := thrown r |}
  | inl err => inl err
  end.
Proof.
  unfold reducer. simpl.
  match goal with
  | |- context [match ?pkg with Some _ => _ | None => inr _ end] =>
      destruct pkg as [name|]; [|done]
  end.
  destruct (get (platformMap acc !! name) name) as [platformList| |]; simpl.
  - by rewrite app_nil_r.
  - done.
  - destruct (loadPlatform W now (Some name) _ (loop_state acc)) as [p s1].
    by destruct (then_M p _ s1) as [task s2].
Qed.

(** The ids that are not registered leave the rest of the reduction alone:
    without them the same tasks are made, in the same order, with the same
    calls and the same arrays. *)
Lemma load_tasks_without_unregistered W now platforms s :
  thrown (load_tasks W now platforms s) = None ->
  let valid :=
    filter (fun id => is_Some (package_of (registeredPlatforms s) id)) platforms in
  thrown (load_tasks W now valid s) = None /\
  taskList (load_tasks W now valid s) `sublist_of` taskList (load_tasks W now platforms s) /\
  platformMap (load_tasks W now valid s) = platformMap (load_tasks W now platforms s) /\
  arrays (load_tasks W now valid s) = arrays (load_tasks W now platforms s) /\
  loop_state (load_tasks W now valid s) = loop_state (load_tasks W now platforms s).
Proof.
  induction platforms as [|id seen IH] using rev_ind; intros Hreturns; [done|].
  apply load_tasks_snoc_returns in Hreturns as [Hseen Hstep].
  simpl in *. rewrite filter_app.
  destruct (load_tasks_invariant W now s seen Hseen) as (keys & evs & lat & Hinv).
  pose proof (inv_state _ _ _ _ _ _ _ Hinv) as Hstate.
  destruct (IH Hseen) as (Hvalid & Hsub & Hmap & Harr & Hst).
  set (full := load_tasks W now (seen ++ [id]) s) in *.
  destruct (package_of (registeredPlatforms s) id) as [name|] eqn:Hpkg.
  - rewrite filter_cons_True by (by rewrite Hpkg). rewrite filter_nil.
    rewrite load_tasks_snoc, Hvalid.
    rewrite (reducer_frame W now (load_tasks W now seen s)) in Hstep.
    rewrite (reducer_frame W now (load_tasks W now (filter _ seen) s)).
    rewrite Hmap, Harr, Hst, Hvalid. rewrite Hseen in Hstep.
    destruct (reducer W now _ id) as [err|r] eqn:Hr; [discriminate|].
    apply reducer_thrown in Hr. simpl in Hr.
    injection Hstep as <-. simpl. split; [done|]. repeat split.
    by apply sublist_app.
  - rewrite filter_cons_False by (rewrite Hpkg; by intros []). rewrite app_nil_r.
    split; [done|].
    destruct (reducer_cases W now (load_tasks W now seen s) id)
      as [[_ Heq] | [(n & l & Hp & _) | [(n & t & e & l & Hp & _)
      | (n & Hp & _)]]]; simpl in *;
      [| rewrite ?Hstate, ?registry_add_events in Hp; congruence ..].
    rewrite Heq in Hstep. injection Hstep as <-. simpl.
    repeat split; try done. by apply sublist_inserts_r.
Qed.

Lemma then_settles {A B} (p : Promise A) (f : Callback A B) :
  is_Some p -> (forall t a, is_Some (f t a).2) -> is_Some (then_ p f).1.
Proof.
  intros [[t [a|e]] ->] Hf; simpl; [|done].
  specialize (Hf (S t) a). destruct (f (S t) a) as [evs [[tq o]|]]; simpl in *;
    [done | by destruct Hf].
Qed.

(** C3 fails on the code for a package named like a member of
    [Object.prototype].  With [k] registered with the package
    [constructor] the call throws out of the reduction and returns no
    promise: the task made for [a] is abandoned, and the id [zz], which is
    not registered, is never reached and contributes no rejection. *)
Lemma loadPlatforms_throws_abandons_tasks :
  (loadPlatforms world_installed 0 ["a"; "k"; "zz"] inherited_state).1 =
    inl (TypeError "platformList.push is not a function") /\
  package_of inherited_config "zz" = None /\
  taskList (load_tasks world_installed 0 ["a"; "k"; "zz"] inherited_state) =
    [Some (2, Fulfilled {| module_id := "modA";
                           module_Platform := Some "modA.Platform";
                           module_platforms := 0 |})].
Proof. repeat split. Qed.

(** X14.  The promise that [loadPlatforms] returns settles only after every
    task of the batch has settled, whether fulfilled or rejected, and it
    does settle once they all have.  An id that is not registered puts the
    rejection of line 85 among the tasks; the tasks of the other ids are
    the ones the batch without such ids makes, with the same calls, and
    the promise waits for them as well. *)
Theorem loadPlatforms_settles_after_tasks W now platforms s p :
  (loadPlatforms W now platforms s).1 = inr p ->
  (forall tick,
     settle_tick p = Some tick ->
     Forall (fun task => exists t, settle_tick task = Some t /\ t <= tick)
       (taskList (load_tasks W now platforms s))) /\
  (Forall (fun task => is_Some (settle_tick task))
     (taskList (load_tasks W now platforms s)) ->
   is_Some (settle_tick p)) /\
  (forall platformId,
     platformId ∈ platforms ->
     package_of (registeredPlatforms s) platformId = None ->
     Q_reject now (not_registered platformId)
       ∈ taskList (load_tasks W now platforms s)) /\
  (taskList
     (load_tasks W now
        (filter (fun id => is_Some (package_of (registeredPlatforms s) id)) platforms) s)
     `sublist_of` taskList (load_tasks W now platforms s) /\
   loop_state
     (load_tasks W now
        (filter (fun id => is_Some (package_of (registeredPlatforms s) id)) platforms) s)
   = loop_state (load_tasks W now platforms s)).
Proof.
  intros Hp. pose proof (loadPlatforms_returns _ _ _ _ _ Hp) as Hreturns.
  rewrite loadPlatforms_unfold in Hp by done. simpl in Hp. injection Hp as <-.
  set (tasks := taskList (load_tasks W now platforms s)).
  set (loaded := (then_ (Q_all now tasks) _).1).
  split; [|split; [|split]].
  - intros tick. unfold finally_.
    destruct loaded as [[t o]|]; [|discriminate].
    destruct (Q_allSettled (S t) tasks) as [[tq [os|e]]|] eqn:Hsettled;
      [| |discriminate]; simpl; intros [= <-];
      apply Q_allSettled_waits in Hsettled as [_ Hall];
      (eapply Forall_impl; [exact Hall|]);
      intros task (tp & Htp & Hle); exists tp; (split; [done | lia]).
  - intros Hall.
    assert (is_Some loaded) as [[t o] ->].
    { apply then_settles.
      - by apply Q_all_settles.
      - intros t modules. unfold instantiate.
        destruct (create_instances _ _ _ modules) as [evs [err|instances]]; done. }
    simpl. destruct (Q_allSettled_settles (S t) tasks Hall) as (tq & os & ->).
    done.
  - intros id Hid Hpkg.
    destruct (load_tasks_invariant W now s platforms Hreturns)
      as (keys & evs & lat & Hinv).
    by apply (inv_rejections _ _ _ _ _ _ _ Hinv).
  - destruct (load_tasks_without_unregistered W now platforms s Hreturns)
      as (_ & Hsub & _ & _ & Hst). done.
Qed.

Lemma loadPlatforms_settles_after_tasks_witness :
  exists p,
    (loadPlatforms world_installing 0 ["a"; "zz"; "b"; "c"] sample_state).1 = inr p /\
    settle_tick p = Some 8 /\
    Forall (fun task => exists t, settle_tick task = Some t /\ t <= 8)
      (taskList (load_tasks world_installing 0 ["a"; "zz"; "b"; "c"] sample_state)) /\
    "zz" ∈ ["a"; "zz"; "b"; "c"] /\
    package_of sample_config "zz" = None /\
    Q_reject 0 (not_registered "zz")
      ∈ taskList (load_tasks world_installing 0 ["a"; "zz"; "b"; "c"] sample_state).
Proof.
  assert ("zz" ∈ ["a"; "zz"; "b"; "c"]) as Hin by (right; left).
  eexists. split; [reflexivity|].
  split; [reflexivity|]. split; [|split; [exact Hin|split; [reflexivity|]]].
  - exact (proj1 (loadPlatforms_settles_after_tasks world_installing 0
                    ["a"; "zz"; "b"; "c"] sample_state _ eq_refl) 8 eq_refl).
  - exact (proj1 (proj2 (proj2 (loadPlatforms_settles_after_tasks world_installing 0
                                  ["a"; "zz"; "b"; "c"] sample_state _ eq_refl)))
             "zz" Hin eq_refl).
Defined.

(** C10.  For an id whose entry exists and has a missing or empty
    [packageName], the reducer adds to the tasks the rejection of line 85
    and does nothing else: the state is as it was, so nothing is logged,
    required or queued, and no array is made.  The rejection is the one an
    id without entry gets, and it is among the tasks of every batch that
    holds the id and whose reduction goes through. *)
Theorem reducer_without_packageName W now acc platformId info :
  get_property (registeredPlatforms (loop_state acc)) platformId = Some info ->
  truthy (packageName info) = None ->
  reducer W now acc platformId =
    inr {| taskList := taskList acc ++
             [Q_reject now
                (Error ("Platform '" +:+ platformId +:+ "' is not registered!"))];
           platformMap := platformMap acc;
           arrays := arrays acc;
           loop_state := loop_state acc;
           thrown := thrown acc |} /\
  (forall acc',
     get_property (registeredPlatforms (loop_state acc')) platformId = None ->
     exists acc'',
       reducer W now acc' platformId = inr acc'' /\
       taskList acc'' =
         taskList acc' ++
           [Q_reject now
              (Error ("Platform '" +:+ platformId +:+ "' is not registered!"))]) /\
  (forall platforms s,
     registeredPlatforms s = registeredPlatforms (loop_state acc) ->
     platformId ∈ platforms ->
     thrown (load_tasks W now platforms s) = None ->
     Q_reject now (Error ("Platform '" +:+ platformId +:+ "' is not registered!"))
       ∈ taskList (load_tasks W now platforms s)).
Proof.
  intros Hinfo Hname. split; [|split].
  - unfold reducer. rewrite Hinfo. simpl. by rewrite Hname.
  - intros acc' Habsent. unfold reducer. rewrite Habsent. unfold get.
    case_decide; eexists; (split; [reflexivity | done]).
  - intros platforms s Hreg Hin Hreturns.
    destruct (load_tasks_invariant W now s platforms Hreturns)
      as (keys & evs & lat & Hinv).
    apply (inv_rejections _ _ _ _ _ _ _ Hinv); [done|].
    unfold package_of. rewrite Hreg, Hinfo. simpl. done.
Qed.

Lemma reducer_without_packageName_witness :
  (get_property nameless_config "x"
     = Some {| packageName := Some ""; source := Some "src"; instance := None |} /\
   truthy (Some "") = None) /\
  reducer world_installed 0
    {| taskList := []; platformMap := ∅; arrays := []; loop_state := nameless_state;
       thrown := None |}
    "x" =
    inr {| taskList := [Q_reject 0 (Error "Platform 'x' is not registered!")];
           platformMap := ∅; arrays := []; loop_state := nameless_state;
           thrown := None |} /\
  Q_reject 0 (Error "Platform 'x' is not registered!")
    ∈ taskList (load_tasks world_installed 0 ["a"; "x"] nameless_state).
Proof.
  split; [split; reflexivity|].
  pose proof (reducer_without_packageName world_installed 0
                {| taskList := []; platformMap := ∅; arrays := [];
                   loop_state := nameless_state; thrown := None |}
                "x" _ eq_refl eq_refl) as (Hstep & _ & Hbatch).
  split; [exact Hstep|].
  apply (Hbatch ["a"; "x"] nameless_state eq_refl); [right; left | reflexivity].
Defined.

(** ** Further properties: the order of tasks and instances *)

Lemma plan_from_snoc loaded packages key :
  plan_from loaded (packages ++ [key]) =
  plan_from loaded packages ++
    match key with
    | None => [None]
    | Some name =>
        if decide (name ∈ loaded \/ Some name ∈ packages) then [] else [Some name]
    end.
Proof.
  revert loaded. induction packages as [|k packages IH]; intros loaded; simpl.
  - destruct key as [name|]; [|done].
    destruct (decide (name ∈ loaded)) as [Hin | Hout].
    + rewrite decide_True; [done | by left].
    + rewrite decide_False; [done|]. intros [H | H]; [done|].
      by apply not_elem_of_nil in H.
  - destruct k as [m|].
    + destruct (decide (m ∈ loaded)) as [Hm | Hm].
      * rewrite IH. f_equal. destruct key as [name|]; [|done].
        destruct (decide (name ∈ loaded \/ Some name ∈ packages)) as [H | H].
        -- rewrite decide_True; [done|]. destruct H; [by left | right; by right].
        -- rewrite decide_False; [done|]. intros [H' | H']; [tauto|].
           apply elem_of_cons in H' as [[= ->] | H']; tauto.
      * rewrite IH. simpl. f_equal. f_equal. destruct key as [name|]; [|done].
        destruct (decide (name ∈ m :: loaded \/ Some name ∈ packages)) as [H | H].
        -- rewrite decide_True; [done|]. destruct H as [H | H]; [|right; by right].
           apply elem_of_cons in H as [-> | H]; [right; left | by left].
        -- rewrite decide_False; [done|]. intros [H' | H'].
           ++ apply H. left. by right.
           ++ apply elem_of_cons in H' as [[= ->] | H'];
                apply H; [left; left | by right].
    + rewrite IH. simpl. f_equal. f_equal. destruct key as [name|]; [|done].
      destruct (decide (name ∈ loaded \/ Some name ∈ packages)) as [H | H].
      * rewrite decide_True; [done|]. destruct H; [by left | right; by right].
      * rewrite decide_False; [done|]. intros [H' | H']; [tauto|].
        apply elem_of_cons in H' as [H' | H']; [discriminate | tauto].
Qed.


(** The invariant holds with the plan as keys. *)
Lemma load_tasks_plan W now s platforms :
  thrown (load_tasks W now platforms s) = None ->
  exists evs lat,
    batch_invariant now s platforms (load_tasks W now platforms s)
      (task_plan (registeredPlatforms s) platforms) evs lat.
Proof.
  induction platforms as [|id seen IH] using rev_ind; intros Hreturns.
  - exists [], []. apply batch_invariant_nil.
  - apply load_tasks_snoc_returns in Hreturns as [Hseen Hstep].
    destruct (IH Hseen) as (evs & lat & Hinv).
    unfold task_plan. rewrite fmap_app. simpl.
    rewrite plan_from_snoc. fold (task_plan (registeredPlatforms s) seen).
    pose proof (inv_state _ _ _ _ _ _ _ Hinv) as Hstate.
    pose proof (inv_keys _ _ _ _ _ _ _ Hinv) as Hkeys.
    pose proof (inv_dom _ _ _ _ _ _ _ Hinv) as Hdom.
    assert (forall name,
              (name ∈ [] \/ Some name ∈ package_of (registeredPlatforms s) <$> seen)
              <-> is_Some (platformMap (load_tasks W now seen s) !! name)) as Hseen'.
    { intros name. rewrite Hdom. split.
      - intros [H | H]; [by apply not_elem_of_nil in H|].
        apply list_elem_of_fmap in H as (x & Hx & Hin). eauto.
      - intros (x & Hin & Hx). right. apply list_elem_of_fmap. eauto. }
    pose proof (reducer_cases W now (load_tasks W now seen s) id) as Hcases.
    simpl in Hcases. rewrite Hstate, registry_add_events in Hcases.
    rewrite <- Hstate in Hcases. rewrite Hstep in Hcases.
    destruct Hcases as [[Hpkg [= ->]] | [(name & l & Hpkg & Hmap & [= ->])
      | [(name & task & calls & lat1 & Hpkg & Hmap & _ & Htask & Hcalls & Hlat1 & [= ->])
      | (name & _ & _ & _ & [=])]]];
      rewrite Hpkg.
    + eexists _, _. by apply batch_invariant_unregistered.
    + rewrite decide_True by (apply Hseen'; eauto). rewrite app_nil_r.
      eexists _, _. by eapply batch_invariant_known.
    + rewrite decide_False by (rewrite Hseen', Hmap; by intros []).
      eexists _, _. by eapply batch_invariant_new.
Qed.

(** The step of the reducer that creates a task, in full. *)
Lemma reducer_new_task W now acc platformId info name :
  get_property (registeredPlatforms (loop_state acc)) platformId = Some info ->
  truthy (packageName info) = Some name ->
  platformMap acc !! name = None ->
  name ∉ Object_prototype ->
  let r := getPlatformModule W now (Some name) (source info)
             (add_events (loop_state acc) [loading name] []) in
  reducer W now acc platformId =
    inr {| taskList := taskList acc ++
             [(then_ (then_ r.1 get_Platform).1
                 (make_module name (length (arrays acc)))).1];
           platformMap := <[name := length (arrays acc)]> (platformMap acc);
           arrays := push (length (arrays acc)) platformId (arrays acc ++ [[]]);
           loop_state := r.2;
           thrown := thrown acc |}.
Proof.
  intros Hinfo Hname Hmap Hproto r. unfold reducer. rewrite Hinfo. simpl.
  rewrite Hname, Hmap. simpl. rewrite decide_False by done.
  unfold loadPlatform, bind. rewrite emit_spec.
  change (log_debug _) with (loading name). fold r.
  destruct r as [p s1]. rewrite !then_M_spec, add_events_add. simpl.
  rewrite (then_pure_no_events p get_Platform) by done.
  rewrite (then_pure_no_events _ (make_module name (length (arrays acc)))) by done.
  by rewrite add_events_nil.
Qed.

Lemma getPlatformModule_promise W now packageName source s s' :
  (getPlatformModule W now packageName source s).1
  = (getPlatformModule W now packageName source s').1.
Proof.
  unfold getPlatformModule.
  destruct (truthy packageName) as [name|]; [|done].
  destruct (truthy source) as [src|]; [|done].
  unfold bind. rewrite !emit_spec.
  destruct (require W now name) as [err|module]; [|done].
  case_decide; [|done]. by rewrite !emit_spec, !then_M_spec.
Qed.

Lemma order_from_snoc registered loaded platforms platformId :
  order_from registered loaded (platforms ++ [platformId]) =
  order_from registered loaded platforms ++
    order_from registered (loaded_after registered loaded platforms) [platformId].
Proof.
  revert loaded. induction platforms as [|x platforms IH]; intros loaded; [done|].
  simpl. destruct (package_of registered x) as [name|].
  - case_decide; [apply IH|]. rewrite IH. done.
  - rewrite IH. done.
Qed.

Lemma loaded_after_snoc registered loaded platforms platformId :
  loaded_after registered loaded (platforms ++ [platformId]) =
  loaded_after registered (loaded_after registered loaded platforms) [platformId].
Proof.
  revert loaded. induction platforms as [|x platforms IH]; intros loaded; [done|].
  simpl. destruct (package_of registered x) as [name|]; [|apply IH].
  case_decide; apply IH.
Qed.

(** The tasks, the packages that have one and the arrays, after a
    reduction that went through. *)
Lemma load_tasks_order W now s platforms :
  thrown (load_tasks W now platforms s) = None ->
  taskList (load_tasks W now platforms s)
    = planned_promise W now <$> task_order (registeredPlatforms s) platforms /\
  (forall name,
     name ∈ loaded_after (registeredPlatforms s) [] platforms <->
     is_Some (platformMap (load_tasks W now platforms s) !! name)) /\
  length (loaded_after (registeredPlatforms s) [] platforms)
    = length (arrays (load_tasks W now platforms s)).
Proof.
  unfold task_order.
  induction platforms as [|id seen IH] using rev_ind; intros Hreturns.
  - simpl. split; [done|]. split; [|done]. intros name. rewrite lookup_empty.
    split; [intros H; by apply not_elem_of_nil in H | by intros []].
  - apply load_tasks_snoc_returns in Hreturns as [Hseen Hstep].
    destruct (IH Hseen) as (Htasks & Hloaded & Hlen).
    destruct (load_tasks_invariant W now s seen Hseen) as (keys & evs & lat & Hinv).
    pose proof (inv_state _ _ _ _ _ _ _ Hinv) as Hstate.
    assert (registeredPlatforms (loop_state (load_tasks W now seen s))
            = registeredPlatforms s) as Hreg by (by rewrite Hstate).
    rewrite order_from_snoc, loaded_after_snoc, fmap_app. simpl.
    set (acc := load_tasks W now seen s) in *.
    set (loaded := loaded_after (registeredPlatforms s) [] seen) in *.
    destruct (reducer_cases W now acc id)
      as [[Hpkg Heq] | [(name & l & Hpkg & Hmap & Heq)
      | [(name & task & calls & lat1 & Hpkg & Hmap & Hproto & _)
      | (name & Hpkg & Hmap & Hproto & Heq)]]]; simpl in Hpkg; rewrite Hreg in Hpkg.
    + rewrite Heq in Hstep. injection Hstep as <-. simpl. rewrite Hpkg. simpl.
      split; [by rewrite Htasks|]. by split.
    + rewrite Heq in Hstep. injection Hstep as <-. simpl. rewrite Hpkg.
      destruct (decide (name ∈ loaded)) as [Hin|Hout];
        [|exfalso; apply Hout, Hloaded; eauto]. simpl.
      split; [by rewrite Htasks, app_nil_r|]. split; [done|].
      unfold push. by rewrite length_alter.
    + pose proof Hpkg as Hpkg'. unfold package_of in Hpkg'.
      destruct (get_property (registeredPlatforms s) id) as [info|] eqn:Hinfo;
        [|discriminate]. simpl in Hpkg'.
      rewrite (reducer_new_task W now acc id info name) in Hstep;
        [|by rewrite Hreg|done|done|done].
      injection Hstep as <-. simpl. rewrite Hpkg.
      destruct (decide (name ∈ loaded)) as [Hin|Hout];
        [apply Hloaded in Hin as [? ?]; congruence|]. simpl.
      split; [|split].
      * rewrite Htasks. do 2 f_equal. unfold package_task. rewrite Hlen.
        by rewrite (getPlatformModule_promise W now (Some name) (source info)
                      initial_state
                      (add_events (loop_state acc) [loading name] [])).
      * intros n. rewrite elem_of_app, list_elem_of_singleton, lookup_insert, Hloaded.
        case_decide as Hn; [subst; split; [by eauto | by right]|].
        split; [intros [H | H]; [done | congruence] | by left].
      * unfold push. rewrite length_alter, !length_app, Hlen. done.
    + rewrite Heq in Hstep. discriminate.
Qed.

(** X1.  When the reduction goes through, the tasks of a batch are these,
    in this order: read from left to right, an id without package gives
    the rejection of line 85 for this very id; the first id registered
    with a package gives the task of line 73 for the package, made with
    the source of this id and the next array; an id whose package has its
    task already gives no task. *)
Theorem load_tasks_follow_plan W now platforms s p :
  (loadPlatforms W now platforms s).1 = inr p ->
  taskList (load_tasks W now platforms s)
    = planned_promise W now <$> task_order (registeredPlatforms s) platforms.
Proof.
  intros Hp. apply loadPlatforms_returns in Hp.
  by destruct (load_tasks_order W now s platforms Hp) as [Htasks _].
Qed.

Lemma load_tasks_follow_plan_witness :
  exists p,
    (loadPlatforms world_installing 0 ["zz"; "c"; "a"; "yy"; "b"] sample_state).1
      = inr p /\
    taskList (load_tasks world_installing 0 ["zz"; "c"; "a"; "yy"; "b"] sample_state)
      = [Q_reject 0 (not_registered "zz");
         package_task world_installing 0 "modC" (Some "src2") 0;
         package_task world_installing 0 "modA" (Some "src") 1;
         Q_reject 0 (not_registered "yy")].
Proof.
  eexists. split; [reflexivity|].
  exact (load_tasks_follow_plan world_installing 0 ["zz"; "c"; "a"; "yy"; "b"]
           sample_state _ eq_refl).
Defined.

(** The instances of a fulfilled batch, all of them: their ids in the order
    of the plan, and what each was constructed with. *)
Lemma loadPlatforms_instances_plan W now platforms s tick instances :
  (loadPlatforms W now platforms s).1 = inr (Some (tick, Fulfilled instances)) ->
  inst_id <$> instances = omap id (task_plan (registeredPlatforms s) platforms) /\
  Forall (fun inst =>
            inst_platforms inst
              = backed_by (registeredPlatforms s) (inst_id inst) platforms /\
            exists id, id ∈ platforms /\
              package_of (registeredPlatforms s) id = Some (inst_id inst))
    instances.
Proof.
  intros Hp. pose proof (loadPlatforms_returns _ _ _ _ _ Hp) as Hreturns.
  apply loadPlatforms_fulfilled_inv in Hp. simpl in Hp.
  destruct Hp as (modules & Htasks & Hinst).
  destruct (load_tasks_plan W now s platforms Hreturns) as (evs & lat & Hinv).
  destruct Hinv. set (acc := load_tasks W now platforms s) in *.
  destruct (fulfilled_tasks_keys _ _ _ _ _ _ _ inv_tasks0 Htasks) as [Hplan Hmods].
  rewrite Hplan, omap_Some_fmap. clear Hplan inv_tasks0 Htasks.
  induction Hinst as [|m inst ms insts (ctor & _ & ->) _ IH]; [done|].
  apply Forall_cons in Hmods as [Hm Hmods]. destruct (IH Hmods) as [Hids Hall].
  split; [simpl; by f_equal|]. constructor; [|done]. simpl.
  rewrite (inv_arrays0 _ _ Hm). split; [done|].
  apply inv_dom0. eauto.
Qed.

(** X2.  When a batch is fulfilled, the result holds one instance for each
    distinct package of the batch, in the order in which the packages come
    first in the batch; there are as many instances as tasks. *)
Theorem loadPlatforms_instance_order W now platforms s tick instances :
  (loadPlatforms W now platforms s).1 = inr (Some (tick, Fulfilled instances)) ->
  inst_id <$> instances = omap id (task_plan (registeredPlatforms s) platforms) /\
  Some <$> (inst_id <$> instances) = task_plan (registeredPlatforms s) platforms /\
  length instances = length (taskList (load_tasks W now platforms s)).
Proof.
  intros Hp.
  destruct (loadPlatforms_instances_plan _ _ _ _ _ _ Hp) as [Hids _].
  split; [exact Hids|].
  pose proof (loadPlatforms_returns _ _ _ _ _ Hp) as Hreturns.
  apply loadPlatforms_fulfilled_inv in Hp. simpl in Hp.
  destruct Hp as (modules & Htasks & Hinst).
  destruct (load_tasks_plan W now s platforms Hreturns) as (evs & lat & Hinv).
  pose proof (inv_tasks _ _ _ _ _ _ _ Hinv) as Hkeys.
  destruct (fulfilled_tasks_keys _ _ _ _ _ _ _ Hkeys Htasks) as [Hplan _].
  split.
  - rewrite Hids, Hplan, omap_Some_fmap. by rewrite <- list_fmap_compose.
  - rewrite <- (Forall2_length _ _ _ Hinst). symmetry.
    exact (Forall2_length _ _ _ Htasks).
Qed.

Lemma loadPlatforms_instance_order_witness :
  (loadPlatforms world_installing 0 ["c"; "a"; "b"; "c"] sample_state).1 =
    inr (Some (10, Fulfilled
      [{| inst_constructor := "modC.Platform"; inst_id := "modC";
          inst_platforms := ["c"; "c"] |};
       {| inst_constructor := "modA.Platform"; inst_id := "modA";
          inst_platforms := ["a"; "b"] |}])) /\
  ["modC"; "modA"] = omap id (task_plan sample_config ["c"; "a"; "b"; "c"]) /\
  [Some "modC"; Some "modA"] = task_plan sample_config ["c"; "a"; "b"; "c"] /\
  2 = length (taskList (load_tasks world_installing 0 ["c"; "a"; "b"; "c"] sample_state)).
Proof.
  split; [reflexivity|].
  exact (loadPlatforms_instance_order world_installing 0 ["c"; "a"; "b"; "c"]
           sample_state 10 _ eq_refl).
Defined.

(** ** Further properties: the instances share out the batch *)

Lemma filter_by_key_partition {A} (f : A -> option string) (names : list string)
    (l : list A) :
  NoDup names ->
  (forall x, x ∈ l -> exists name, name ∈ names /\ f x = Some name) ->
  mjoin ((fun name => filter (fun x => f x = Some name) l) <$> names) ≡ₚ l.
Proof.
  intros Hnd. revert l. induction Hnd as [|name names Hfresh Hnd IH]; intros l Hall.
  - destruct l as [|x l]; [done|].
    destruct (Hall x) as (name & Hin & _); [left|]. by apply not_elem_of_nil in Hin.
  - change (filter (fun x => f x = Some name) l ++
              mjoin ((fun n => filter (fun x => f x = Some n) l) <$> names) ≡ₚ l).
    etrans; [|exact (filter_app_complement (fun x => f x = Some name) l)].
    apply Permutation_app_head.
    assert (((fun n => filter (fun x => f x = Some n) l) <$> names)
            = ((fun n => filter (fun x => f x = Some n)
                           (filter (fun x => ~ f x = Some name) l)) <$> names))
      as ->.
    { apply list_fmap_ext. intros i n Hn.
      rewrite list_filter_filter. apply list_filter_iff. intros x. split.
      - intros Hx. split; [done|]. rewrite Hx. intros [= <-].
        apply Hfresh. apply list_elem_of_lookup. eauto.
      - by intros [Hx _]. }
    apply IH.
    intros x Hx. apply list_elem_of_filter in Hx as [Hne Hx].
    destruct (Hall x Hx) as (n & Hn & Hfx). exists n. split; [|done].
    apply elem_of_cons in Hn as [-> | Hn]; [done | done].
Qed.

(** X3.  When a batch is fulfilled, its instances share out the ids of the
    batch: every instance was constructed with the ids of the batch that
    its package backs, in the order of the batch, and with at least one;
    put together, the lists of the instances are the batch, each
    occurrence of an id in one list only. *)
Theorem loadPlatforms_instances_partition W now platforms s tick instances :
  (loadPlatforms W now platforms s).1 = inr (Some (tick, Fulfilled instances)) ->
  Forall (fun inst =>
            inst_platforms inst
              = backed_by (registeredPlatforms s) (inst_id inst) platforms /\
            inst_platforms inst <> [])
    instances /\
  mjoin (inst_platforms <$> instances) ≡ₚ platforms.
Proof.
  intros Hp.
  destruct (loadPlatforms_instances_plan _ _ _ _ _ _ Hp) as [_ Hall].
  destruct (loadPlatforms_instances _ _ _ _ _ _ Hp) as (Hnd & Hin & Hreg).
  split.
  - eapply Forall_impl; [exact Hall|]. intros inst [Heq (id & Hid & Hpkg)].
    split; [done|]. rewrite Heq. intros Hnil.
    eapply (filter_nil_not_elem_of _ _ id); [exact Hnil | exact Hpkg | exact Hid].
  - assert (inst_platforms <$> instances =
            (fun name => backed_by (registeredPlatforms s) name platforms)
              <$> (inst_id <$> instances)) as ->.
    { rewrite <- list_fmap_compose. apply Forall_fmap_ext.
      eapply Forall_impl; [exact Hall|]. by intros inst [-> _]. }
    apply (filter_by_key_partition (package_of (registeredPlatforms s))); [done|].
    intros id Hid. destruct (Hreg id Hid) as [name Hname].
    exists name. split; [|done].
    destruct (Hin name) as [ctor Hinst]; [by eauto|].
    apply list_elem_of_fmap. eexists. split; [|exact Hinst]. done.
Qed.

Lemma loadPlatforms_instances_partition_witness :
  (loadPlatforms world_installing 0 ["c"; "a"; "b"; "c"] sample_state).1 =
    inr (Some (10, Fulfilled
      [{| inst_constructor := "modC.Platform"; inst_id := "modC";
          inst_platforms := ["c"; "c"] |};
       {| inst_constructor := "modA.Platform"; inst_id := "modA";
          inst_platforms := ["a"; "b"] |}])) /\
  ["c"; "c"; "a"; "b"] ≡ₚ ["c"; "a"; "b"; "c"].
Proof.
  split; [reflexivity|].
  exact (proj2 (loadPlatforms_instances_partition world_installing 0
                  ["c"; "a"; "b"; "c"] sample_state 10 _ eq_refl)).
Defined.

(** ** Further properties: constructors and rejections *)

Lemma create_instances_calls W t store modules evs instances :
  create_instances W t store modules = (evs, inr instances) ->
  evs = construction <$> instances.
Proof.
  revert evs instances.
  induction modules as [|m modules IH]; simpl; intros evs instances.
  - by intros [= <- <-].
  - destruct (module_Platform m) as [ctor|]; [|discriminate].
    destruct (construct W t ctor _ _) as [err|]; [discriminate|].
    destruct (create_instances W t store modules) as [evs' [err|instances']];
      [discriminate|].
    intros [= <- <-]. simpl. f_equal. by apply IH.
Qed.

Lemma create_instances_inl W t store modules evs err :
  create_instances W t store modules = (evs, inl err) ->
  (err = TypeError "module.Platform is not a constructor" /\
   exists m, m ∈ modules /\ module_Platform m = None) \/
  (exists m ctor,
     m ∈ modules /\ module_Platform m = Some ctor /\
     construct W t ctor (module_id m) (default [] (store !! module_platforms m))
       = Some err).
Proof.
  revert evs.
  induction modules as [|m modules IH]; simpl; intros evs; [discriminate|].
  destruct (module_Platform m) as [ctor|] eqn:Hctor.
  - destruct (construct W t ctor _ _) as [err'|] eqn:Hthrows.
    + intros [= <- <-]. right. exists m, ctor. split; [left | done].
    + destruct (create_instances W t store modules) as [evs' [err'|instances']];
        [|discriminate].
      intros [= <- <-].
      destruct (IH _ eq_refl) as [(-> & m' & Hin & Hm') | (m' & c & Hin & Hrest)].
      * left. split; [done|]. exists m'. split; [by right | done].
      * right. exists m', c. split; [by right | done].
  - intros [= <- <-]. left. split; [done|]. exists m. split; [left | done].
Qed.

Lemma first_rejection_elem {A} (ps : list (Promise A)) t e :
  first_rejection ps = Some (t, e) -> Some (t, Rejected e) ∈ ps.
Proof.
  revert t e. induction ps as [|p ps IH]; simpl; intros t e; [discriminate|].
  destruct p as [[tp [v|r]]|].
  - intros H. right. by apply IH.
  - destruct (first_rejection ps) as [[t' e']|].
    + case_decide; intros [= <- <-]; [left | right; by apply IH].
    + intros [= <- <-]. left.
  - intros H. right. by apply IH.
Qed.

Lemma first_rejection_is_Some {A} (ps : list (Promise A)) t e :
  Some (t, Rejected e) ∈ ps -> is_Some (first_rejection ps).
Proof.
  induction ps as [|p ps IH]; simpl; intros Hin.
  - by apply not_elem_of_nil in Hin.
  - apply elem_of_cons in Hin as [<- | Hin].
    + destruct (first_rejection ps) as [[t' e']|]; [case_decide|]; done.
    + destruct (IH Hin) as [[t' e'] ->].
      destruct p as [[tp [v|r]]|]; [done | case_decide; done | done].
Qed.

Lemma Q_allSettled_fulfils {A} now (ps : list (Promise A)) t e :
  Q_allSettled now ps <> Some (t, Rejected e).
Proof.
  destruct ps as [|[[tp o]|] ps]; simpl; try discriminate.
  destruct (Q_allSettled now ps) as [[t' [os|e']]|]; discriminate.
Qed.

Lemma finally_allSettled_inv {A B} (p : Promise A) (ps : list (Promise B)) tick o :
  finally_ p (fun t => Q_allSettled t ps) = Some (tick, o) ->
  exists t0, p = Some (t0, o) /\ t0 < tick.
Proof.
  unfold finally_. destruct p as [[t0 o0]|]; [|discriminate].
  destruct (Q_allSettled (S t0) ps) as [[tq [os|e]]|] eqn:Hs; try discriminate.
  - intros [= <- <-]. exists t0. split; [done | lia].
  - by apply Q_allSettled_fulfils in Hs.
Qed.

(** X4.  When a batch is fulfilled, the callbacks it registered have called
    the constructor once for each instance of the result, with that
    instance's id and list, in the order of the result and in one turn,
    which comes after the turn of the call and before the promise settles;
    the only other calls of callbacks are second attempts to require a
    package. *)
Theorem loadPlatforms_constructs_once W now platforms s tick instances :
  (loadPlatforms W now platforms s).1 = inr (Some (tick, Fulfilled instances)) ->
  exists attempts t,
    later (loadPlatforms W now platforms s).2 =
      later s ++ attempts ++ ((fun inst => (t, construction inst)) <$> instances) /\
    Forall (fun te => exists name, te.2 = require_call name) attempts /\
    now < t /\ t < tick.
Proof.
  intros Hp. pose proof (loadPlatforms_returns _ _ _ _ _ Hp) as Hreturns.
  revert Hp. rewrite loadPlatforms_unfold by done. simpl.
  destruct (load_tasks_invariant W now s platforms Hreturns)
    as (keys & evs & lat & Hinv).
  destruct Hinv. destruct inv_no_flush0 as [_ Hlat].
  rewrite inv_state0. simpl. clear -Hlat.
  set (acc := load_tasks W now platforms s).
  intros [= Hp]. apply finally_allSettled_inv in Hp as (t0 & Hp & Hlt).
  unfold then_ in *.
  destruct (Q_all now (taskList acc)) as [[t1 [modules|e]]|] eqn:Hall;
    simpl in *; try discriminate.
  apply Q_all_tick in Hall. unfold instantiate in *.
  destruct (create_instances W (S t1) (arrays acc) modules)
    as [calls [err|instances']] eqn:Hc;
    simpl in *; try discriminate.
  injection Hp as <- ->. apply create_instances_calls in Hc as ->.
  exists lat, (S t1). split; [|split; [done | lia]].
  rewrite <- app_assoc. do 2 f_equal. unfold stamp.
  change (map (pair (S t1)) (construction <$> instances))
    with (pair (S t1) <$> (construction <$> instances)).
  by rewrite <- list_fmap_compose.
Qed.

Lemma loadPlatforms_constructs_once_witness :
  (loadPlatforms world_installing 0 ["a"; "b"; "c"] sample_state).1 =
    inr (Some (10, Fulfilled
      [{| inst_constructor := "modA.Platform"; inst_id := "modA";
          inst_platforms := ["a"; "b"] |};
       {| inst_constructor := "modC.Platform"; inst_id := "modC";
          inst_platforms := ["c"] |}])) /\
  exists attempts t,
    later (loadPlatforms world_installing 0 ["a"; "b"; "c"] sample_state).2 =
      [] ++ attempts ++
        [(t, new_call "modA.Platform" "modA" ["a"; "b"]);
         (t, new_call "modC.Platform" "modC" ["c"])] /\
    Forall (fun te => exists name, te.2 = require_call name) attempts /\
    0 < t /\ t < 10.
Proof.
  split; [reflexivity|].
  exact (loadPlatforms_constructs_once world_installing 0 ["a"; "b"; "c"]
           sample_state 10 _ eq_refl).
Defined.

(** X5.  When a batch is rejected, the reason is the reason of one of its
    rejected tasks, or else every task is fulfilled and the reason is
    either the [TypeError] raised for a loaded module that exports no
    [Platform], or the error that a [Platform] constructor threw. *)
Theorem loadPlatforms_rejection_reason W now platforms s tick e :
  (loadPlatforms W now platforms s).1 = inr (Some (tick, Rejected e)) ->
  (exists t, Some (t, Rejected e) ∈ taskList (load_tasks W now platforms s)) \/
  (Forall (fun task => exists t m, task = Some (t, Fulfilled m))
     (taskList (load_tasks W now platforms s)) /\
   exists t m,
     Some (t, Fulfilled m) ∈ taskList (load_tasks W now platforms s) /\
     ((e = TypeError "module.Platform is not a constructor" /\
       module_Platform m = None) \/
      exists ctor t' platformList,
        module_Platform m = Some ctor /\
        construct W t' ctor (module_id m) platformList = Some e)).
Proof.
  intros Hp. pose proof (loadPlatforms_returns _ _ _ _ _ Hp) as Hreturns.
  rewrite loadPlatforms_unfold in Hp by done. simpl in Hp. injection Hp as Hp.
  set (acc := load_tasks W now platforms s) in *.
  apply finally_allSettled_inv in Hp as (t0 & Hp & _).
  unfold then_, Q_all in Hp.
  destruct (first_rejection (taskList acc)) as [[t1 e1]|] eqn:Hrej; simpl in Hp.
  - injection Hp as _ ->. left. exists t1. by apply first_rejection_elem.
  - destruct (all_fulfilled now (taskList acc)) as [[t1 modules]|] eqn:Hall;
      simpl in Hp; [|discriminate].
    unfold instantiate in Hp.
    destruct (create_instances W (S t1) (arrays acc) modules)
      as [calls [err|instances]] eqn:Hc;
      simpl in Hp; [|discriminate].
    injection Hp as _ ->. right.
    apply all_fulfilled_values in Hall. split.
    + clear -Hall. induction Hall as [|p v ps vs (tp & -> & _) _ IH];
        constructor; eauto.
    + assert (forall m, m ∈ modules ->
                exists t, Some (t, Fulfilled m) ∈ taskList acc) as Htask.
      { intros m Hm. apply list_elem_of_lookup in Hm as [i Hi].
        destruct (Forall2_lookup_r _ _ _ _ _ Hall Hi) as (task & Htask & tp & -> & _).
        exists tp. apply list_elem_of_lookup. eauto. }
      apply create_instances_inl in Hc
        as [(-> & m & Hm & Hctor) | (m & ctor & Hm & Hctor & Hthrows)];
        destruct (Htask m Hm) as [tp Hin]; exists tp, m; (split; [done|]).
      * by left.
      * right. eauto.
Qed.

Lemma loadPlatforms_rejection_reason_witness :
  (loadPlatforms world_throwing 0 ["a"; "b"] sample_state).1
    = inr (Some (4, Rejected (Error "not supported"))) /\
  ((exists t, Some (t, Rejected (Error "not supported"))
                ∈ taskList (load_tasks world_throwing 0 ["a"; "b"] sample_state)) \/
   (Forall (fun task => exists t m, task = Some (t, Fulfilled m))
      (taskList (load_tasks world_throwing 0 ["a"; "b"] sample_state)) /\
    exists t m,
      Some (t, Fulfilled m)
        ∈ taskList (load_tasks world_throwing 0 ["a"; "b"] sample_state) /\
      ((Error "not supported" = TypeError "module.Platform is not a constructor" /\
        module_Platform m = None) \/
       exists ctor t' platformList,
         module_Platform m = Some ctor /\
         construct world_throwing t' ctor (module_id m) platformList
           = Some (Error "not supported")))).
Proof.
  split; [reflexivity|].
  exact (loadPlatforms_rejection_reason world_throwing 0 ["a"; "b"]
           sample_state 4 _ eq_refl).
Defined.

(** X6.  A batch that holds an id without package, be it an id absent from
    the registry or one whose entry has no [packageName], is never
    fulfilled, whatever happens to the packages of the other ids, and no
    constructor is called: the callbacks of the batch only make second
    attempts to require a package. *)
Theorem loadPlatforms_unregistered_never_fulfilled W now platforms s platformId :
  platformId ∈ platforms ->
  package_of (registeredPlatforms s) platformId = None ->
  (forall tick instances,
     (loadPlatforms W now platforms s).1 <> inr (Some (tick, Fulfilled instances))) /\
  exists attempts,
    later (loadPlatforms W now platforms s).2 = later s ++ attempts /\
    Forall (fun te => exists name, te.2 = require_call name) attempts.
Proof.
  intros Hin Hpkg. split.
  - intros tick instances Hp.
    destruct (loadPlatforms_instances _ _ _ _ _ _ Hp) as (_ & _ & Hreg).
    destruct (Hreg platformId Hin) as [name Hname]. congruence.
  - destruct (loadPlatforms_state W now platforms s)
      as (seen & keys & evs & lat & _ & Hinv & Hstate).
    pose proof (inv_no_flush _ _ _ _ _ _ _ Hinv) as [_ Hlat].
    exists lat. split; [|done].
    destruct ((loadPlatforms W now platforms s).1) as [err|p].
    + by rewrite Hstate.
    + destruct Hstate as [-> ->]. simpl.
      pose proof (inv_rejections _ _ _ _ _ _ _ Hinv platformId Hin Hpkg) as Hrej.
      apply first_rejection_is_Some in Hrej as [[t e] Hrej].
      unfold then_, Q_all. rewrite Hrej. simpl. by rewrite app_nil_r.
Qed.

Lemma loadPlatforms_unregistered_never_fulfilled_witness :
  ("x" ∈ ["a"; "x"] /\ package_of nameless_config "x" = None) /\
  (forall tick instances,
     (loadPlatforms world_installing 0 ["a"; "x"] nameless_state).1
       <> inr (Some (tick, Fulfilled instances))) /\
  exists attempts,
    later (loadPlatforms world_installing 0 ["a"; "x"] nameless_state).2
      = [] ++ attempts /\
    Forall (fun te => exists name, te.2 = require_call name) attempts.
Proof.
  assert ("x" ∈ ["a"; "x"]) as Hin by (right; left).
  split; [split; [exact Hin | reflexivity]|].
  exact (loadPlatforms_unregistered_never_fulfilled world_installing 0 ["a"; "x"]
           nameless_state "x" Hin eq_refl).
Defined.

(** X7.  The empty batch: no task is made and nothing is logged, required
    or queued; [installQueuedPackages] is called all the same, and the
    promise is fulfilled with the empty list of instances. *)
Theorem loadPlatforms_empty_batch W now s :
  taskList (load_tasks W now [] s) = [] /\
  exists tick,
    loadPlatforms W now [] s =
      (inr (Some (tick, Fulfilled [])),
       add_events s [installQueuedPackages_call] []) /\
    now < tick.
Proof.
  split; [done|]. exists (S (S now)). split; [|lia].
  rewrite loadPlatforms_unfold by done. simpl. rewrite !Nat.max_id. done.
Qed.

(** ** Further properties: the registry *)

Lemma get_property_key (registered : Registry) key info :
  get_property registered key = Some info -> key ∈ Object_keys registered.
Proof.
  induction registered as [|[k v] rest IH]; simpl; [discriminate|].
  case_decide as Hk; [subst; intros _; left | intros H; right; by apply IH].
Qed.

Lemma get_property_of_key (registered : Registry) key :
  key ∈ Object_keys registered -> is_Some (get_property registered key).
Proof.
  induction registered as [|[k v] rest IH]; simpl; intros Hin.
  - by apply not_elem_of_nil in Hin.
  - case_decide as Hk; [done|]. apply IH.
    apply elem_of_cons in Hin as [-> | Hin]; [done | done].
Qed.

(** X8.  [getAllPlatforms] and [getPlatform] agree: an instance is among
    the elements of [getAllPlatforms] exactly when [getPlatform] returns it
    for some id; [getAllPlatforms] has an [undefined] element exactly when
    [getPlatform] throws the not-loaded error for some key of the registry;
    and for an id that is no key of the registry [getPlatform] throws the
    not-loaded error exactly when the id names a member of
    [Object.prototype], and the not-found error otherwise. *)
Theorem getAllPlatforms_getPlatform (registered : Registry) :
  (forall i,
     Some i ∈ getAllPlatforms registered <->
     exists platformId, getPlatform registered platformId = inr i) /\
  (None ∈ getAllPlatforms registered <->
   exists platformId,
     platformId ∈ Object_keys registered /\
     getPlatform registered platformId =
       inl (Error ("The requested platform '" +:+ platformId +:+ "' was not loaded."))) /\
  (forall platformId,
     platformId ∉ Object_keys registered ->
     getPlatform registered platformId =
       inl (Error ("The requested platform '" +:+ platformId +:+
                   (if decide (platformId ∈ Object_prototype)
                    then "' was not loaded." else "' was not found.")))).
Proof.
  assert (forall o,
            o ∈ getAllPlatforms registered <->
            exists key info, get_property registered key = Some info /\
                             instance info = o) as Hall.
  { intros o. unfold getAllPlatforms.
    change (map ?f ?l) with (f <$> l). rewrite list_elem_of_fmap. split.
    - intros (key & -> & Hkey).
      destruct (get_property_of_key _ _ Hkey) as [info Hinfo].
      exists key, info. by rewrite Hinfo.
    - intros (key & info & Hinfo & <-). exists key. split.
      + by rewrite Hinfo.
      + by eapply get_property_key. }
  split; [|split].
  - intros i. rewrite Hall. unfold getPlatform. split.
    + intros (key & info & Hinfo & Hi). exists key. rewrite Hinfo. simpl.
      by rewrite Hi.
    + intros (key & Hget).
      destruct (get_property registered key) as [info|] eqn:Hinfo; simpl in Hget.
      * destruct (instance info) as [i'|] eqn:Hi; [|discriminate].
        injection Hget as ->. eauto.
      * by case_decide.
  - rewrite Hall. unfold getPlatform. split.
    + intros (key & info & Hinfo & Hi). exists key.
      split; [by eapply get_property_key|]. rewrite Hinfo. simpl. by rewrite Hi.
    + intros (key & Hkey & Hget).
      destruct (get_property_of_key _ _ Hkey) as [info Hinfo].
      rewrite Hinfo in Hget. simpl in Hget.
      destruct (instance info) as [i'|] eqn:Hi; [discriminate|]. eauto.
  - intros platformId Hkey. unfold getPlatform.
    destruct (get_property registered platformId) as [info|] eqn:Hinfo.
    + by apply get_property_key in Hinfo.
    + simpl. by case_decide.
Qed.

(** ** Further properties: loading a package *)

(** X9.  For a package that is installed, [loadPlatform] logs its line,
    requires the package once and contacts the acquirer not at all; its
    promise is fulfilled one tick later with what the module exports as
    [Platform], also when the module exports none: the value is then
    [undefined] and the promise is fulfilled all the same. *)
Theorem loadPlatform_installed W now packageName source s name src module :
  truthy packageName = Some name ->
  truthy source = Some src ->
  require W now name = inr module ->
  loadPlatform W now packageName source s =
    (Some (S now, Fulfilled (Platform module)),
     add_events s [log_debug ("Loading platform module: " +:+ name);
                   require_call name] []).
Proof.
  intros Hname Hsrc Hreq.
  assert (packageName = Some name) as ->.
  { destruct packageName as [v|]; [|discriminate]. simpl in Hname.
    by case_decide; simplify_eq. }
  unfold loadPlatform, getPlatformModule, bind, ret.
  rewrite Hname, Hsrc, !emit_spec, Hreq, then_M_spec, !add_events_add. simpl.
  by rewrite Nat.max_id.
Qed.

Lemma loadPlatform_installed_witness :
  (truthy (Some "modA") = Some "modA" /\
   truthy (Some "src") = Some "src" /\
   require world_installed 0 "modA" = inr (module_of "modA")) /\
  loadPlatform world_installed 0 (Some "modA") (Some "src") initial_state =
    (Some (1, Fulfilled (Some "modA.Platform")),
     {| registeredPlatforms := [];
        trace := [log_debug "Loading platform module: modA"; require_call "modA"];
        later := [] |}).
Proof.
  split; [repeat split|].
  exact (loadPlatform_installed world_installed 0 (Some "modA") (Some "src")
           initial_state "modA" "src" (module_of "modA") eq_refl eq_refl eq_refl).
Defined.

(** The calls of the module loader in its turn, and why it makes them. *)
Lemma getPlatformModule_calls W now name source s :
  exists calls lat,
    (getPlatformModule W now (Some name) source s).2 = add_events s calls lat /\
    Forall (fun e =>
              (e = require_call name /\ is_Some (truthy source)) \/
              exists src err,
                e = queuePackageInstallation_call name src /\
                truthy source = Some src /\
                require W now name = inl err /\
                code err = Some "MODULE_NOT_FOUND")
      calls.
Proof.
  unfold getPlatformModule.
  destruct (truthy (Some name)) as [name'|] eqn:Hname.
  - assert (name' = name) as ->.
    { simpl in Hname. by case_decide; simplify_eq. }
    destruct (truthy source) as [src|] eqn:Hsrc.
    + unfold bind. rewrite emit_spec.
      destruct (require W now name) as [err|module] eqn:Hreq.
      * case_decide as Hcode.
        -- rewrite emit_spec, then_M_spec, !add_events_add. simpl.
           eexists _, _. split; [reflexivity|].
           constructor; [left; by eauto|]. constructor; [|constructor].
           right. by exists src, err.
        -- exists [require_call name], []. split; [done|].
           constructor; [left; by eauto | constructor].
      * exists [require_call name], []. split; [done|].
        constructor; [left; by eauto | constructor].
    + exists [], []. simpl. by rewrite add_events_nil.
  - exists [], []. simpl. by rewrite add_events_nil.
Qed.

Lemma first_with_snoc registered name seen platformId x :
  first_with registered name seen platformId ->
  first_with registered name (seen ++ [x]) platformId.
Proof.
  intros (before & after & -> & Hpkg & Hfirst).
  exists before, (after ++ [x]). split; [|done].
  by rewrite <- app_assoc.
Qed.

Lemma turn_call_justified_snoc W now registered seen x e :
  turn_call_justified W now registered seen e ->
  turn_call_justified W now registered (seen ++ [x]) e.
Proof.
  destruct e as [message|name|name src| |ctor id l]; simpl; try done.
  - intros (name & id & -> & Hfirst). exists name, id.
    split; [done | by apply first_with_snoc].
  - intros (id & info & Hfirst & Hinfo & Hsrc). exists id, info.
    split; [by apply first_with_snoc | done].
  - intros (id & info & err & Hfirst & Hrest). exists id, info, err.
    split; [by apply first_with_snoc | done].
Qed.

(** The calls made while the tasks are created, each with its reason. *)
Lemma load_tasks_calls W now s platforms :
  exists created,
    trace (loop_state (load_tasks W now platforms s)) = trace s ++ created /\
    Forall (turn_call_justified W now (registeredPlatforms s) platforms) created.
Proof.
  induction platforms as [|id seen IH] using rev_ind.
  - exists []. split; [by rewrite app_nil_r | constructor].
  - destruct IH as (created & Htrace & Hjust).
    assert (Forall (turn_call_justified W now (registeredPlatforms s) (seen ++ [id]))
              created) as Hjust'.
    { eapply Forall_impl; [exact Hjust|]. intros e.
      apply turn_call_justified_snoc. }
    rewrite load_tasks_snoc.
    destruct (thrown (load_tasks W now seen s)) as [err|] eqn:Hthrown;
      [by exists created|].
    destruct (load_tasks_invariant W now s seen Hthrown)
      as (keys & evs & lat & Hinv).
    pose proof (inv_state _ _ _ _ _ _ _ Hinv) as Hstate.
    pose proof (inv_dom _ _ _ _ _ _ _ Hinv) as Hdom.
    assert (registeredPlatforms (loop_state (load_tasks W now seen s))
            = registeredPlatforms s) as Hreg by (by rewrite Hstate).
    destruct (reducer_cases W now (load_tasks W now seen s) id)
      as [[_ ->] | [(name & l & _ & _ & ->)
      | [(name & task & calls & lat1 & Hpkg & Hmap & Hproto & _)
      | (name & _ & _ & _ & ->)]]].
    + by exists created.
    + by exists created.
    + simpl in Hpkg. rewrite Hreg in Hpkg. pose proof Hpkg as Hpkg'.
      unfold package_of in Hpkg'.
      destruct (get_property (registeredPlatforms s) id) as [info|] eqn:Hinfo;
        [|discriminate]. simpl in Hpkg'.
      rewrite (reducer_new_task W now _ id info name);
        [|by rewrite Hreg|done|done|done].
      simpl.
      destruct (getPlatformModule_calls W now name (source info)
                  (add_events (loop_state (load_tasks W now seen s)) [loading name] []))
        as (calls' & lat' & -> & Hcalls).
      simpl. rewrite Htrace, <- !app_assoc.
      exists (created ++ [loading name] ++ calls'). split; [done|].
      assert (first_with (registeredPlatforms s) name (seen ++ [id]) id) as Hfirst.
      { exists seen, []. split; [done|]. split; [done|].
        intros x Hx Hp.
        assert (is_Some (platformMap (load_tasks W now seen s) !! name)) as [r Hr].
        { apply Hdom. eauto. }
        congruence. }
      apply Forall_app. split; [done|]. apply Forall_app. split.
      * constructor; [|constructor]. simpl. by exists name, id.
      * eapply Forall_impl; [exact Hcalls|]. intros e [[-> Hsrc] | Hq]; simpl.
        -- by exists id, info.
        -- destruct Hq as (src & err & -> & Hsrc & Hreq & Hcode).
           by exists id, info, err.
    + by exists created.
Qed.

(** X10.  The calls of [loadPlatforms] in its turn all belong to packages
    of the batch, but for the final [installQueuedPackages], which is made
    when the call returns its promise and is not made when it throws: a
    line is logged and a package is required only for a package that some
    id of the batch is registered with, and an installation is queued only
    for such a package that [require] did not find, with the source of the
    first id of the batch registered with the package; the sources of
    later ids that share the package are not used. *)
Theorem loadPlatforms_turn_calls W now platforms s :
  exists created,
    trace (loadPlatforms W now platforms s).2
      = trace s ++ created ++
          match (loadPlatforms W now platforms s).1 with
          | inr _ => [installQueuedPackages_call]
          | inl _ => []
          end /\
    Forall (turn_call_justified W now (registeredPlatforms s) platforms) created.
Proof.
  destruct (load_tasks_calls W now s platforms) as (created & Htrace & Hjust).
  exists created. split; [|done].
  destruct (thrown (load_tasks W now platforms s)) as [err|] eqn:Hthrown.
  - rewrite (loadPlatforms_throws _ _ _ _ _ Hthrown). simpl.
    by rewrite app_nil_r.
  - rewrite loadPlatforms_unfold by done. simpl. rewrite Htrace.
    by rewrite app_assoc.
Qed.

(** ** Further properties: a batch that succeeds *)





(** Whether the reduction throws is settled by the registry alone: it
    throws when it meets an id whose package is named as a member of
    [Object.prototype], with the [TypeError] of line 82, and goes through
    otherwise. *)
Lemma load_tasks_thrown W now s platforms :
  match thrown (load_tasks W now platforms s) with
  | None =>
      forall id name,
        id ∈ platforms -> package_of (registeredPlatforms s) id = Some name ->
        name ∉ Object_prototype
  | Some err =>
      err = TypeError "platformList.push is not a function" /\
      exists id name,
        id ∈ platforms /\ package_of (registeredPlatforms s) id = Some name /\
        (name ∈ Object_prototype)
  end.
Proof.
  induction platforms as [|id seen IH] using rev_ind.
  - simpl. intros id name Hin. by apply not_elem_of_nil in Hin.
  - rewrite load_tasks_snoc.
    destruct (thrown (load_tasks W now seen s)) as [err|] eqn:Hthrown.
    + rewrite Hthrown. destruct IH as (-> & x & name & Hx & Hpkg & Hproto).
      split; [done|]. exists x, name. split; [|done].
      apply elem_of_app. by left.
    + destruct (load_tasks_invariant W now s seen Hthrown)
        as (keys & evs & lat & Hinv).
      pose proof (inv_state _ _ _ _ _ _ _ Hinv) as Hstate.
      pose proof (inv_dom _ _ _ _ _ _ _ Hinv) as Hdom.
      assert (registeredPlatforms (loop_state (load_tasks W now seen s))
              = registeredPlatforms s) as Hreg by (by rewrite Hstate).
      destruct (reducer_cases W now (load_tasks W now seen s) id)
        as [[Hpkg ->] | [(name & l & Hpkg & Hmap & ->)
        | [(name & task & calls & lat1 & Hpkg & Hmap & Hproto & _ & _ & _ & ->)
        | (name & Hpkg & Hmap & Hproto & ->)]]];
        simpl in Hpkg; rewrite Hreg in Hpkg; simpl; rewrite ?Hthrown.
      * intros x n Hx Hn. apply elem_of_app in Hx as [Hx | Hx]; [by eapply IH|].
        apply list_elem_of_singleton in Hx as ->. congruence.
      * intros x n Hx Hn. apply elem_of_app in Hx as [Hx | Hx]; [by eapply IH|].
        apply list_elem_of_singleton in Hx as ->.
        assert (n = name) as -> by congruence.
        destruct (proj1 (Hdom name)) as (y & Hy & Hyn); [by eauto|].
        by eapply IH.
      * intros x n Hx Hn. apply elem_of_app in Hx as [Hx | Hx]; [by eapply IH|].
        apply list_elem_of_singleton in Hx as ->. congruence.
      * split; [done|]. exists id, name. split; [|done].
        apply elem_of_app. right. by apply list_elem_of_singleton.
Qed.





(** ** Further properties: one batch after another *)

Lemma loadPlatforms_logs_once W now platforms s name :
  thrown (load_tasks W now platforms s) = None ->
  (exists id, id ∈ platforms /\ package_of (registeredPlatforms s) id = Some name) ->
  registeredPlatforms (loadPlatforms W now platforms s).2 = registeredPlatforms s /\
  exists created,
    trace (loadPlatforms W now platforms s).2 = trace s ++ created /\
    count (loading name) created = 1.
Proof.
  intros Hreturns Hname.
  destruct (load_tasks_invariant W now s platforms Hreturns)
    as (keys & evs & lat & Hinv).
  destruct Hinv. apply inv_dom0 in Hname as [platformList Hl].
  rewrite loadPlatforms_unfold by done. simpl. rewrite inv_state0. simpl.
  split; [done|]. exists (evs ++ [installQueuedPackages_call]).
  split; [by rewrite app_assoc|].
  rewrite count_app. specialize (inv_loading0 name). rewrite Hl in inv_loading0.
  assert (count (loading name) [installQueuedPackages_call] = 0) as -> by done.
  lia.
Qed.

(** Whether a batch throws does not depend on the world or on the tick. *)
Lemma load_tasks_returns_again W W' now now' s s' platforms :
  registeredPlatforms s' = registeredPlatforms s ->
  thrown (load_tasks W now platforms s) = None ->
  thrown (load_tasks W' now' platforms s') = None.
Proof.
  intros Hreg Hreturns.
  pose proof (load_tasks_thrown W now s platforms) as Hfirst.
  pose proof (load_tasks_thrown W' now' s' platforms) as Hsecond.
  rewrite Hreturns in Hfirst.
  destruct (thrown (load_tasks W' now' platforms s')) as [err|]; [|done].
  destruct Hsecond as (_ & id & name & Hin & Hpkg & Hproto).
  rewrite Hreg in Hpkg. by destruct (Hfirst id name Hin Hpkg).
Qed.

(** X12.  Nothing is kept from one batch to the next: [platformMap] is
    made anew by every call, so when a call of [loadPlatforms] returns its
    promise, a second call for the same ids returns its promise too and
    calls [loadPlatform] for each of their packages again. *)
Theorem loadPlatforms_again_loads_again W now now' platforms s name p :
  (exists id, id ∈ platforms /\ package_of (registeredPlatforms s) id = Some name) ->
  (loadPlatforms W now platforms s).1 = inr p ->
  (exists p',
     (loadPlatforms W now' platforms (loadPlatforms W now platforms s).2).1
       = inr p') /\
  exists created,
    trace (loadPlatforms W now' platforms (loadPlatforms W now platforms s).2).2
      = trace s ++ created /\
    count (loading name) created = 2.
Proof.
  intros Hname Hp. apply loadPlatforms_returns in Hp as Hreturns.
  destruct (loadPlatforms_logs_once W now platforms s name Hreturns Hname)
    as (Hreg & created1 & Htrace1 & Hcount1).
  pose proof (load_tasks_returns_again W W now now' s
                (loadPlatforms W now platforms s).2 platforms Hreg Hreturns)
    as Hreturns'.
  destruct (loadPlatforms_logs_once W now' platforms
              (loadPlatforms W now platforms s).2 name Hreturns')
    as (_ & created2 & Htrace2 & Hcount2); [by rewrite Hreg|].
  split.
  - rewrite loadPlatforms_unfold by done. simpl. eauto.
  - exists (created1 ++ created2). split.
    + by rewrite Htrace2, Htrace1, app_assoc.
    + rewrite count_app. lia.
Qed.

Lemma loadPlatforms_again_loads_again_witness :
  ((exists id, id ∈ ["a"; "b"] /\ package_of sample_config id = Some "modA") /\
   (loadPlatforms world_installed 0 ["a"; "b"] sample_state).1
     = inr (Some (4, Fulfilled [{| inst_constructor := "modA.Platform";
                                   inst_id := "modA";
                                   inst_platforms := ["a"; "b"] |}]))) /\
  (exists p',
     (loadPlatforms world_installed 7 ["a"; "b"]
        (loadPlatforms world_installed 0 ["a"; "b"] sample_state).2).1
       = inr p') /\
  exists created,
    trace (loadPlatforms world_installed 7 ["a"; "b"]
             (loadPlatforms world_installed 0 ["a"; "b"] sample_state).2).2
      = [] ++ created /\
    count (loading "modA") created = 2.
Proof.
  assert (exists id, id ∈ ["a"; "b"] /\ package_of sample_config id = Some "modA")
    as Hshared.
  { exists "a". split; [left | reflexivity]. }
  split; [split; [exact Hshared | reflexivity]|].
  exact (loadPlatforms_again_loads_again world_installed 0 7 ["a"; "b"]
           sample_state "modA" _ Hshared eq_refl).
Defined.

(** ** Further properties: a batch that throws *)

(** X15.  [loadPlatforms] throws, instead of returning a promise, exactly
    when some id of the batch is registered with a package whose name is
    the name of a member of [Object.prototype], such as [constructor] or
    [toString]; what it throws is then the [TypeError] of line 82, and
    [installQueuedPackages] has not been called. *)
Theorem loadPlatforms_throws_iff W now platforms s :
  ((exists err, (loadPlatforms W now platforms s).1 = inl err) <->
   exists id name,
     id ∈ platforms /\ package_of (registeredPlatforms s) id = Some name /\
     (name ∈ Object_prototype)) /\
  forall err,
    (loadPlatforms W now platforms s).1 = inl err ->
    err = TypeError "platformList.push is not a function" /\
    exists created,
      trace (loadPlatforms W now platforms s).2 = trace s ++ created /\
      count installQueuedPackages_call created = 0.
Proof.
  pose proof (load_tasks_thrown W now s platforms) as Hthrown.
  destruct (thrown (load_tasks W now platforms s)) as [e|] eqn:Hloop.
  - destruct Hthrown as (-> & Hname).
    rewrite (loadPlatforms_throws _ _ _ _ _ Hloop). simpl. split.
    + split; [done | by eauto].
    + intros err [= <-]. split; [done|].
      destruct (load_tasks_stops W now s platforms)
        as (seen & _ & Hseen & _ & _ & -> & _).
      destruct (load_tasks_invariant W now s seen Hseen)
        as (keys & evs & lat & Hinv).
      destruct Hinv. destruct inv_no_flush0 as [Hflush _].
      rewrite inv_state0. simpl. exists evs. split; [done|].
      by apply count_not_elem.
  - rewrite loadPlatforms_unfold by done. simpl. split.
    + split.
      * by intros [err Herr].
      * intros (id & name & Hin & Hpkg & Hproto).
        by destruct (Hthrown id name Hin Hpkg).
    + by intros err Herr.
Qed.
